(** * async_dns: the DNS wire codec of [src/async_dns.py]

    A shallow embedding of the pure part of the module: [build_address],
    [build_request], [parse_ip], [parse_name], [parse_record],
    [parse_header], [parse_response] and [is_valid_hostname], together
    with the pieces of the Python runtime they rely on (byte strings,
    slicing, [struct], exceptions, the [VALID_HOSTNAME] pattern).

    Conventions.
    - A Python [bytes] value is a [list byte].
    - Offsets and lengths are [nat]: every offset the module computes
      starts at 0 or 12 and only grows, or is a pointer masked with
      [0x3FFF], so negative (from-the-end) indexing never happens.
    - Unsigned wire values (a byte read with [common.ord], a 16-bit field)
      are [N]; the TTL, unpacked with the signed format [i], is a [Z].
    - A call that may raise is a value of [result]: [Ok v] or [Raise e]. *)

From Stdlib Require Import List NArith ZArith Lia Bool Arith.
From Stdlib Require Import Strings.Byte.
From Stdlib Require Strings.String.
Import ListNotations.
Import String.StringSyntax.

Set Implicit Arguments.

(** ** The Python runtime the module uses *)

Module Py.

Definition bytes := list byte.

(** A bytes literal [b"..."]. *)
Definition B (s : String.string) : bytes := String.list_byte_of_string s.
Arguments B s%_string_scope.

Definition dot : byte := "."%byte.
Definition hyphen : byte := "-"%byte.
Definition newline : byte := x0a.

(** The exceptions that the embedded code can raise. *)
Inductive exn : Set :=
| IndexError      (* data[p] with p >= len(data) *)
| StructError     (* struct.unpack on a buffer of the wrong size, pack out of range *)
| ValueError      (* socket.inet_ntop on a packed address of the wrong length *)
| TypeError       (* bytes + None *)
| RecursionError. (* the interpreter's recursion limit is reached *)

Inductive result (A : Type) : Type :=
| Ok (v : A)
| Raise (e : exn).
Arguments Ok {A} v.
Arguments Raise {A} e.

Definition bind {A B} (m : result A) (k : A -> result B) : result B :=
  match m with
  | Ok v => k v
  | Raise e => Raise e
  end.

(** [try: ... except Exception: return None] *)
Definition try_except {A} (m : result (option A)) : option A :=
  match m with
  | Ok v => v
  | Raise _ => None
  end.

(** [common.ord(data[p])]: indexing a bytes object gives an int. *)
Definition ord (c : byte) : N := Byte.to_N c.

(** [common.chr(d)] is [bytes([d])]; every use in the module is guarded
    by [d <= 63], so the [ValueError] of [d > 255] is out of reach. *)
Definition chr (d : nat) : bytes :=
  match Byte.of_N (N.of_nat d) with
  | Some c => [c]
  | None => []
  end.

(** [data[p]] *)
Definition index (data : bytes) (p : nat) : result byte :=
  match nth_error data p with
  | Some c => Ok c
  | None => Raise IndexError
  end.

(** [data[lo:hi]] for non-negative bounds: clamped, never raises. *)
Definition slice (data : bytes) (lo hi : nat) : bytes :=
  firstn (hi - lo) (skipn lo data).

(** [s.lstrip(c)], [s.rstrip(c)], [s.strip(c)] for a one-byte [c]. *)
Fixpoint lstrip (c : byte) (s : bytes) : bytes :=
  match s with
  | [] => []
  | x :: s' => if Byte.eqb x c then lstrip c s' else s
  end.

Definition rstrip (c : byte) (s : bytes) : bytes := rev (lstrip c (rev s)).

Definition strip (c : byte) (s : bytes) : bytes := rstrip c (lstrip c s).

(** [s.split(c)] for a one-byte separator: never the empty list. *)
Fixpoint split (c : byte) (s : bytes) : list bytes :=
  match s with
  | [] => [[]]
  | x :: s' =>
      if Byte.eqb x c then [] :: split c s'
      else match split c s' with
           | l :: ls => (x :: l) :: ls
           | [] => [[x]]
           end
  end.

(** [sep.join(parts)] *)
Fixpoint join (sep : bytes) (parts : list bytes) : bytes :=
  match parts with
  | [] => []
  | [l] => l
  | l :: rest => l ++ sep ++ join sep rest
  end.

(** Big-endian unsigned 16-bit value of two bytes. *)
Definition be16 (hi lo : byte) : N := (256 * ord hi + ord lo)%N.

(** Big-endian signed 32-bit value of four bytes (format [i]). *)
Definition be32_signed (b3 b2 b1 b0 : byte) : Z :=
  let u := Z.of_N (16777216 * ord b3 + 65536 * ord b2 + 256 * ord b1 + ord b0)%N in
  if (u <? 2147483648)%Z then u else (u - 4294967296)%Z.

Definition byte_of_N (n : N) : byte :=
  match Byte.of_N n with
  | Some c => c
  | None => x00
  end.

(** One [B] field of [struct.pack]. *)
Definition pack_B (v : N) : result bytes :=
  if (v <? 256)%N then Ok [byte_of_N v] else Raise StructError.

(** One [H] field of [struct.pack] in network order. *)
Definition pack_H (v : N) : result bytes :=
  if (v <? 65536)%N then Ok [byte_of_N (v / 256); byte_of_N (v mod 256)]
  else Raise StructError.

(** [struct.pack('!BBHHHH', a, b, c, d, e, f)] *)
Definition pack_BBHHHH (a b c d e f : N) : result bytes :=
  match pack_B a, pack_B b, pack_H c, pack_H d, pack_H e, pack_H f with
  | Ok a', Ok b', Ok c', Ok d', Ok e', Ok f' =>
      Ok (a' ++ b' ++ c' ++ d' ++ e' ++ f')
  | _, _, _, _, _, _ => Raise StructError
  end.

(** [struct.pack('!HH', a, b)] *)
Definition pack_HH (a b : N) : result bytes :=
  match pack_H a, pack_H b with
  | Ok a', Ok b' => Ok (a' ++ b')
  | _, _ => Raise StructError
  end.

(** [struct.unpack('!H', s)[0]] *)
Definition unpack_H (s : bytes) : result N :=
  match s with
  | [hi; lo] => Ok (be16 hi lo)
  | _ => Raise StructError
  end.

(** [struct.unpack('!HH', s)] *)
Definition unpack_HH (s : bytes) : result (N * N) :=
  match s with
  | [t1; t0; c1; c0] => Ok (be16 t1 t0, be16 c1 c0)
  | _ => Raise StructError
  end.

(** [struct.unpack('!HHiH', s)] *)
Definition unpack_HHiH (s : bytes) : result (N * N * Z * N) :=
  match s with
  | [t1; t0; c1; c0; l3; l2; l1; l0; r1; r0] =>
      Ok (be16 t1 t0, be16 c1 c0, be32_signed l3 l2 l1 l0, be16 r1 r0)
  | _ => Raise StructError
  end.

(** [struct.unpack('!HBBHHHH', s)] *)
Definition unpack_HBBHHHH (s : bytes)
  : result (N * N * N * N * N * N * N) :=
  match s with
  | [i1; i0; f1; f0; q1; q0; a1; a0; n1; n0; r1; r0] =>
      Ok (be16 i1 i0, ord f1, ord f0,
          be16 q1 q0, be16 a1 a0, be16 n1 n0, be16 r1 r0)
  | _ => Raise StructError
  end.

(** [data[-1]] *)
Definition index_last (data : bytes) : result byte :=
  match rev data with
  | c :: _ => Ok c
  | [] => Raise IndexError
  end.

(** [x + y] where [x] is a bytes object and [y] is bytes or [None]. *)
Definition add (x : bytes) (y : option bytes) : result bytes :=
  match y with
  | Some y' => Ok (x ++ y')
  | None => Raise TypeError
  end.

(** [socket.inet_ntop(family, packed)]: the presentation text of a packed
    address.  The text is a function of the packed bytes alone (dotted
    decimal, or the RFC 5952 form), and is kept here as [Text] around the
    bytes it renders; a packed address of the wrong length is a
    [ValueError]. *)
Inductive family : Set := AF_INET | AF_INET6.

Definition packed_length (af : family) : nat :=
  match af with AF_INET => 4 | AF_INET6 => 16 end.

(** What [parse_ip] can return: a [str] or a [bytes]. *)
Inductive rdata : Type :=
| Text (af : family) (packed : bytes)
| Bytes (s : bytes).

Definition inet_ntop (af : family) (packed : bytes) : result rdata :=
  if length packed =? packed_length af then Ok (Text af packed)
  else Raise ValueError.

(** Python values of the two types that meet in a comparison of the
    module: [hostname[-1]] is an int, [b'.'] is a bytes object. *)
Inductive pyval : Type :=
| PyInt (n : N)
| PyBytes (s : bytes).

(** [==]: values of different types are unequal. *)
Definition py_eq (x y : pyval) : bool :=
  match x, y with
  | PyInt m, PyInt n => (m =? n)%N
  | PyBytes s, PyBytes t =>
      if list_eq_dec Byte.byte_eq_dec s t then true else false
  | _, _ => false
  end.

End Py.
Import Py.

Notation "x <- m ;; k" := (bind m (fun x => k))
  (at level 61, m at next level, right associativity).
Notation "' p <- m ;; k" := (bind m (fun p => k))
  (at level 61, p pattern, m at next level, right associativity).

(** ** The module's constants *)

Definition QTYPE_ANY : N := 255.
Definition QTYPE_A : N := 1.
Definition QTYPE_AAAA : N := 28.
Definition QTYPE_CNAME : N := 5.
Definition QTYPE_NS : N := 2.
Definition QCLASS_IN : N := 1.

(** ** [build_address] *)

(** The [for label in labels] loop: [None] is the early [return None]. *)
Fixpoint build_labels (labels : list bytes) (results : list bytes)
  : option (list bytes) :=
  match labels with
  | [] => Some results
  | label :: rest =>
      let l := length label in
      if 63 <? l then None
      else build_labels rest (results ++ [chr l; label])
  end.

Definition build_address (address : bytes) : option bytes :=
  let address := strip dot address in
  let labels := split dot address in
  match build_labels labels [] with
  | None => None
  | Some results => Some (concat (results ++ [[x00]]))
  end.

(** ** [build_request]

    [os.urandom(2)] is an input of the model: the two bytes drawn. *)
Definition build_request (urandom : byte * byte) (address : bytes) (qtype : N)
  : result bytes :=
  let request_id := [fst urandom; snd urandom] in
  header <- pack_BBHHHH 1 0 1 0 0 0 ;;
  let addr := build_address address in
  qtype_qclass <- pack_HH qtype QCLASS_IN ;;
  with_addr <- add (request_id ++ header) addr ;;
  Ok (with_addr ++ qtype_qclass).

(** ** [parse_name] *)

Definition is_pointer (l : N) : bool :=
  (N.land l (128 + 64) =? 128 + 64)%N.

(** The [while l > 0] loop, entered at the read of [data[p]] (before the
    loop and at the end of each turn in the source).  [rec] is the
    recursive call [parse_name(data, _)].  A turn that reads a label moves
    [p] forward by at least 2, and [fuel] counts the turns left; with
    [length data <= fuel + p + 1] the turn after the last one allowed reads
    past the end, which is the [IndexError] returned at [fuel = 0]
    (lemma [parse_name_loop_fuel]). *)
Fixpoint parse_name_loop (fuel : nat) (rec : nat -> result (nat * bytes))
    (data : bytes) (offset p : nat) (labels : list bytes)
  : result (nat * bytes) :=
  c <- index data p ;;
  let l := ord c in
  if (0 <? l)%N then
    if is_pointer l then
      pointer <- unpack_H (slice data p (p + 2)) ;;
      let pointer := N.land pointer 0x3FFF in
      r <- rec (N.to_nat pointer) ;;
      let labels := labels ++ [snd r] in
      let p := p + 2 in
      Ok (p - offset, join [dot] labels)
    else
      let labels := labels ++ [slice data (p + 1) (p + 1 + N.to_nat l)] in
      let p := p + 1 + N.to_nat l in
      match fuel with
      | O => Raise IndexError
      | S fuel' => parse_name_loop fuel' rec data offset p labels
      end
  else Ok (p - offset + 1, join [dot] labels).

(** [depth] is the number of nested [parse_name] frames the interpreter
    still allows: the source has no bound of its own, and a call beyond
    the recursion limit raises [RecursionError]. *)
Fixpoint parse_name (depth : nat) (data : bytes) (offset : nat)
  : result (nat * bytes) :=
  match depth with
  | O => Raise RecursionError
  | S depth' =>
      parse_name_loop (length data) (parse_name depth' data) data offset offset []
  end.

(** ** [parse_ip] *)

Definition parse_ip (depth : nat) (addrtype : N) (data : bytes)
    (length offset : nat) : result rdata :=
  if (addrtype =? QTYPE_A)%N then
    inet_ntop AF_INET (slice data offset (offset + length))
  else if (addrtype =? QTYPE_AAAA)%N then
    inet_ntop AF_INET6 (slice data offset (offset + length))
  else if existsb (N.eqb addrtype) [QTYPE_CNAME; QTYPE_NS] then
    r <- parse_name depth data offset ;;
    Ok (Bytes (snd r))
  else Ok (Bytes (slice data offset (offset + length))).

(** ** [parse_record]

    The record tuple [(name, ip, type, class, ttl)]; a question has
    [None] for [ip] and [ttl] (and, in the source, one more [None] at the
    end of its tuple, which nothing reads). *)
Definition record : Type := bytes * option rdata * N * N * option Z.

Definition parse_record (depth : nat) (data : bytes) (offset : nat)
    (question : bool) : result (nat * record) :=
  '(nlen, name) <- parse_name depth data offset ;;
  if negb question then
    '(record_type, record_class, record_ttl, record_rdlength) <-
      unpack_HHiH (slice data (offset + nlen) (offset + nlen + 10)) ;;
    ip <- parse_ip depth record_type data (N.to_nat record_rdlength)
            (offset + nlen + 10) ;;
    Ok (nlen + 10 + N.to_nat record_rdlength,
        (name, Some ip, record_type, record_class, Some record_ttl))
  else
    '(record_type, record_class) <-
      unpack_HH (slice data (offset + nlen) (offset + nlen + 4)) ;;
    Ok (nlen + 4, (name, None, record_type, record_class, None)).

(** ** [parse_header] *)

Record header : Set := Header {
  res_id : N;
  res_qr : N;
  res_tc : N;
  res_ra : N;
  res_rcode : N;
  res_qdcount : N;
  res_ancount : N;
  res_nscount : N;
  res_arcount : N
}.

Definition parse_header (data : bytes) : result (option header) :=
  if 12 <=? length data then
    '(h0, h1, h2, h3, h4, h5, h6) <- unpack_HBBHHHH (slice data 0 12) ;;
    Ok (Some (Header h0 (N.land h1 128) (N.land h1 2) (N.land h2 128)
                (N.land h2 15) h3 h4 h5 h6))
  else Ok None.

(** ** [DNSResponse] and [parse_response] *)

Record DNSResponse : Type := Response {
  hostname : option bytes;
  questions : list (option rdata * N * N);  (* each: (addr, type, class) *)
  answers : list (option rdata * N * N)     (* each: (addr, type, class) *)
}.

(** [for i in range(0, count): l, r = parse_record(...); offset += l;
    if r: acc.append(r)].  A record tuple is never empty, so [if r] always
    holds. *)
Fixpoint parse_records (depth : nat) (data : bytes) (question : bool)
    (count offset : nat) (acc : list record) : result (nat * list record) :=
  match count with
  | O => Ok (offset, acc)
  | S count' =>
      '(l, r) <- parse_record depth data offset question ;;
      parse_records depth data question count' (offset + l) (acc ++ [r])
  end.

(** [for i in range(0, count): l, r = parse_record(...); offset += l] *)
Fixpoint skip_records (depth : nat) (data : bytes) (count offset : nat)
  : result nat :=
  match count with
  | O => Ok offset
  | S count' =>
      '(l, _) <- parse_record depth data offset false ;;
      skip_records depth data count' (offset + l)
  end.

Definition triple (an : record) : option rdata * N * N :=
  let '(_, an1, an2, an3, _) := an in (an1, an2, an3).

(** The body of the [try]. *)
Definition parse_response_body (depth : nat) (data : bytes)
  : result (option DNSResponse) :=
  if 12 <=? length data then
    header <- parse_header data ;;
    match header with
    | None => Ok None
    | Some h =>
        '(offset, qds) <-
          parse_records depth data true (N.to_nat (res_qdcount h)) 12 [] ;;
        '(offset, ans) <-
          parse_records depth data false (N.to_nat (res_ancount h)) offset [] ;;
        offset <- skip_records depth data (N.to_nat (res_nscount h)) offset ;;
        offset <- skip_records depth data (N.to_nat (res_arcount h)) offset ;;
        let hostname :=
          match qds with
          | q :: _ => let '(name, _, _, _, _) := q in Some name
          | [] => None
          end in
        Ok (Some (Response hostname (map triple qds) (map triple ans)))
    end
  else Ok None.

Definition parse_response (depth : nat) (data : bytes) : option DNSResponse :=
  try_except (parse_response_body depth data).

(** ** [VALID_HOSTNAME] and [is_valid_hostname] *)

(** The class [[A-Z\d-]] of a bytes pattern compiled with [re.IGNORECASE]. *)
Definition in_class (c : byte) : bool :=
  let n := ord c in
  ((65 <=? n) && (n <=? 90) || (97 <=? n) && (n <=? 122)
   || (48 <=? n) && (n <=? 57) || (n =? 45))%N.

(** How many leading bytes the greedy [[A-Z\d-]{1,63}] takes at most. *)
Fixpoint class_run (max : nat) (s : bytes) : nat :=
  match max, s with
  | S max', c :: s' => if in_class c then S (class_run max' s') else 0
  | _, _ => 0
  end.

(** [(?<!-)] at position [k >= 1]. *)
Definition not_after_hyphen (s : bytes) (k : nat) : bool :=
  match nth_error s (k - 1) with
  | Some c => negb (Byte.eqb c hyphen)
  | None => true
  end.

(** [$] at position [k]: the end, or just before a final newline. *)
Definition at_dollar (s : bytes) (k : nat) : bool :=
  (k =? length s)
  || (S k =? length s)
     && match nth_error s k with
        | Some c => Byte.eqb c newline
        | None => false
        end.

(** Backtracking over the repetition: [k] bytes taken, then [k - 1], ...,
    down to the one the pattern requires. *)
Fixpoint backtrack (s : bytes) (k : nat) : bool :=
  match k with
  | O => false
  | S k' => not_after_hyphen s k && at_dollar s k || backtrack s k'
  end.

(** [VALID_HOSTNAME.match(x)] is not [None]:
    [(?!-)[A-Z\d-]{1,63}(?<!-)$] anchored at the start of [x]. *)
Definition VALID_HOSTNAME_match (x : bytes) : bool :=
  match x with
  | c :: _ => negb (Byte.eqb c hyphen)
  | [] => true
  end
  && backtrack x (class_run 63 x).

Definition is_valid_hostname (hostname : bytes) : result bool :=
  if 255 <? length hostname then Ok false
  else
    last <- index_last hostname ;;
    let hostname :=
      if py_eq (PyInt (ord last)) (PyBytes (B "."))
      then removelast hostname else hostname in
    Ok (forallb VALID_HOSTNAME_match (split dot hostname)).

(** ** [DNSProtocol]

    The class keeps its registries in class attributes, shared by all
    instances: they are the state [registry], passed explicitly.  An
    instance is known in the registries by its identity, and stands here
    as its number [num], which [__init__] takes from a counter that only
    grows.  What a method does to its transport, to its callback and to
    the standard output is the list of [event]s it returns.  The local
    port and the descriptor that the methods read from the socket, and the
    two bytes of [os.urandom], are inputs. *)

Module Protocol.

Inductive error : Type :=
| CodecError (e : exn)   (* raised by [build_request] *)
| KeyError.              (* [used_port[port]] without the key *)

Inductive outcome : Type :=
| Returned
| Raised (e : error).

(** The lines printed, without their formatting. *)
Inductive printed : Type :=
| PortReuseBegin
| PortReuseList (protocols : list nat)
| PortReuseEnd
| NotLength90 (data : bytes)
| NoProtocolFound
| RemoveFailed (self : nat)
| WithSock (x : nat)
| NoPortUsed (port : nat).

Inductive event : Type :=
| Print (line : printed)
| SendTo (self : nat) (req : bytes)                    (* self.transport.sendto(req) *)
| Close (self : nat)                                   (* self.transport.close() *)
| Callback (response : option DNSResponse) (self : nat). (* self.callback((response, self)) *)

(** The class attributes; [num] of the class is [next_num]. *)
Record registry : Type := Registry {
  next_num : nat;
  sending : list nat;
  receiving : list nat;
  conn_lost : list nat;
  used_port : list (nat * list nat)
}.

(** The class as the module defines it. *)
Definition initial : registry := Registry 1 [] [] [] [].

Record instance : Type := Instance {
  hostname : bytes;
  num : nat;
  port : option nat;
  file_no : option nat;
  receive_data_num : nat
}.

(** [s.add(x)] on a set *)
Definition set_add (x : nat) (s : list nat) : list nat :=
  if existsb (Nat.eqb x) s then s else s ++ [x].

(** [d.get(k)] on a dict, in insertion order *)
Fixpoint dict_get (d : list (nat * list nat)) (k : nat) : option (list nat) :=
  match d with
  | [] => None
  | (k', v) :: d' => if k' =? k then Some v else dict_get d' k
  end.

(** [d[k] = v] *)
Fixpoint dict_set (d : list (nat * list nat)) (k : nat) (v : list nat)
  : list (nat * list nat) :=
  match d with
  | [] => [(k, v)]
  | (k', v') :: d' =>
      if k' =? k then (k, v) :: d' else (k', v') :: dict_set d' k v
  end.

(** [l.remove(x)]: the first occurrence goes; [None] is the [ValueError]
    of a list without [x]. *)
Fixpoint list_remove (x : nat) (l : list nat) : option (list nat) :=
  match l with
  | [] => None
  | y :: l' =>
      if y =? x then Some l'
      else match list_remove x l' with
           | Some r => Some (y :: r)
           | None => None
           end
  end.

(** The truth value of [d.get(k)]: [None] and the empty list are false. *)
Definition truthy (v : option (list nat)) : bool :=
  match v with
  | Some (_ :: _) => true
  | _ => false
  end.

(** [__init__] *)
Definition init (st : registry) (hostname : bytes) : registry * instance :=
  (Registry (next_num st + 1) (sending st) (receiving st) (conn_lost st)
     (used_port st),
   Instance hostname (next_num st) None None 0).

(** [checkout_port_usage] *)
Definition checkout_port_usage (used_port : list (nat * list nat))
  : list event :=
  flat_map
    (fun item : nat * list nat =>
       if 1 <? length (snd item)
       then [Print PortReuseBegin; Print (PortReuseList (snd item));
             Print PortReuseEnd]
       else [])
    used_port.

(** [connection_made] *)
Definition connection_made (st : registry) (self : instance)
    (sock_port sock_fileno : nat) (urandom : byte * byte)
  : registry * instance * list event * outcome :=
  let self :=
    Instance (hostname self) (num self) (Some sock_port) (Some sock_fileno)
      (receive_data_num self) in
  match build_request urandom (hostname self) QTYPE_A with
  | Raise e => (st, self, [], Raised (CodecError e))
  | Ok req =>
      let sending := set_add (num self) (sending st) in
      let used_port :=
        if truthy (dict_get (used_port st) sock_port)
        then match dict_get (used_port st) sock_port with
             | Some l => dict_set (used_port st) sock_port (l ++ [num self])
             | None => used_port st
             end
        else dict_set (used_port st) sock_port [num self] in
      (Registry (next_num st) sending (receiving st) (conn_lost st) used_port,
       self,
       SendTo (num self) req :: checkout_port_usage used_port,
       Returned)
  end.

(** [try: l.remove(self) except Exception: print(...)] *)
Definition try_remove (self : nat) (l : list nat) : list nat * list event :=
  match list_remove self l with
  | Some l' => (l', [])
  | None => (l, [Print (RemoveFailed self)])
  end.

(** [datagram_received]; [depth] is the recursion limit under which
    [parse_response] runs. *)
Definition datagram_received (depth : nat) (st : registry) (self : instance)
    (sock_port : nat) (data : bytes)
  : registry * list event * outcome :=
  let ev_len :=
    if negb (length data =? 90) then [Print (NotLength90 data)] else [] in
  let receiving := set_add (num self) (receiving st) in
  let response := parse_response depth data in
  let ev_found :=
    if negb (truthy (dict_get (used_port st) sock_port))
    then [Print NoProtocolFound] else [] in
  match dict_get (used_port st) sock_port with
  | None =>
      (Registry (next_num st) (sending st) receiving (conn_lost st)
         (used_port st),
       ev_len ++ ev_found, Raised KeyError)
  | Some l =>
      let '(l', ev_remove) :=
        if length l =? 1 then try_remove (num self) l
        else if 1 <=? length l then
          let '(l', ev) := try_remove (num self) l in
          (l', map (fun x => Print (WithSock x)) l ++ ev)
        else (l, [Print (NoPortUsed sock_port)]) in
      (Registry (next_num st) (sending st) receiving (conn_lost st)
         (dict_set (used_port st) sock_port l'),
       ev_len ++ ev_found ++ ev_remove
       ++ [Close (num self); Callback response (num self)],
       Returned)
  end.

(** [connection_lost] *)
Definition connection_lost (self : instance) : list event :=
  [Close (num self)].

(** The calls on the transport and on the callback among the events. *)
Definition is_action (ev : event) : bool :=
  match ev with
  | Print _ => false
  | _ => true
  end.

(** The list that [l.remove(x)] leaves, or [l] when [x] is not in it. *)
Definition without (x : nat) (l : list nat) : list nat :=
  match list_remove x l with
  | Some l' => l'
  | None => l
  end.

End Protocol.

(** ** Notions used to state the properties *)

(** The wire form of a label sequence: [(length-byte, label-bytes)*]. *)
Definition encode_labels (labels : list bytes) : bytes :=
  flat_map (fun label => chr (length label) ++ label) labels.

(** A label that the wire form can carry: 1 to 63 bytes. *)
Definition wire_label (label : bytes) : Prop :=
  1 <= length label <= 63.

(** A label that the decoder reads as one: its length fits a byte, is not
    0 and has not both top bits set (the decoder does not refuse the
    lengths 64 to 191). *)
Definition plain_label (label : bytes) : Prop :=
  1 <= length label <= 255 /\ is_pointer (N.of_nat (length label)) = false.

(** The compression pointer that the call [parse_name(data, p)] follows, if
    its loop gets to one: the walk of [parse_name_loop] without the labels
    and without the recursive call. *)
Fixpoint next_pointer_loop (fuel : nat) (data : bytes) (p : nat) : option nat :=
  match nth_error data p with
  | None => None
  | Some c =>
      let l := ord c in
      if (0 <? l)%N then
        if is_pointer l then
          match unpack_H (slice data p (p + 2)) with
          | Ok pointer => Some (N.to_nat (N.land pointer 0x3FFF))
          | Raise _ => None
          end
        else
          match fuel with
          | O => None
          | S fuel' => next_pointer_loop fuel' data (p + 1 + N.to_nat l)
          end
      else None
  end.

Definition next_pointer (data : bytes) (offset : nat) : option nat :=
  next_pointer_loop (length data) data offset.

(** The offset reached from [offset] after following [k] pointers. *)
Fixpoint chain (data : bytes) (offset k : nat) : option nat :=
  match k with
  | O => Some offset
  | S k' =>
      match next_pointer data offset with
      | Some target => chain data target k'
      | None => None
      end
  end.

(** The flag bits of a message by the RFC 1035 header layout: the first
    flags byte is [QR | Opcode(4) | AA | TC | RD], the second is
    [RA | Z(3) | RCODE(4)]. *)
Definition flags1 (msg : bytes) : N := ord (nth 2 msg x00).
Definition flags2 (msg : bytes) : N := ord (nth 3 msg x00).
Definition rfc_QR (msg : bytes) : N := N.shiftr (flags1 msg) 7.
Definition rfc_Opcode (msg : bytes) : N := N.land (N.shiftr (flags1 msg) 3) 15.
Definition rfc_AA (msg : bytes) : N := N.land (N.shiftr (flags1 msg) 2) 1.
Definition rfc_TC (msg : bytes) : N := N.land (N.shiftr (flags1 msg) 1) 1.
Definition rfc_RD (msg : bytes) : N := N.land (flags1 msg) 1.
Definition rfc_RA (msg : bytes) : N := N.shiftr (flags2 msg) 7.
Definition rfc_RCODE (msg : bytes) : N := N.land (flags2 msg) 15.

(** The header tuple that [parse_header] builds from the first 12 bytes:
    the masks are applied to the flags bytes without any shift. *)
Definition header_at (data : bytes) : header :=
  {| res_id := be16 (nth 0 data x00) (nth 1 data x00);
     res_qr := N.land (flags1 data) 128;
     res_tc := N.land (flags1 data) 2;
     res_ra := N.land (flags2 data) 128;
     res_rcode := N.land (flags2 data) 15;
     res_qdcount := be16 (nth 4 data x00) (nth 5 data x00);
     res_ancount := be16 (nth 6 data x00) (nth 7 data x00);
     res_nscount := be16 (nth 8 data x00) (nth 9 data x00);
     res_arcount := be16 (nth 10 data x00) (nth 11 data x00) |}.

(** The record type that [parse_ip] renders with [inet_ntop]. *)
Definition qtype_of_family (af : family) : N :=
  match af with AF_INET => QTYPE_A | AF_INET6 => QTYPE_AAAA end.

(** The components of a record tuple. *)
Definition name_of (r : record) : bytes := let '(n, _, _, _, _) := r in n.
Definition ip_of (r : record) : option rdata := let '(_, i, _, _, _) := r in i.
Definition type_of (r : record) : N := let '(_, _, t, _, _) := r in t.
Definition class_of (r : record) : N := let '(_, _, _, c, _) := r in c.

(** [decoded depth data kinds off rs off']: starting at [off], one record
    per entry of [kinds] ([true] for a question) decodes, giving [rs] and
    ending at [off']. *)
Inductive decoded (depth : nat) (data : bytes)
  : list bool -> nat -> list record -> nat -> Prop :=
| decoded_nil (off : nat) : decoded depth data [] off [] off
| decoded_cons (q : bool) (kinds : list bool) (off l : nat) (r : record)
    (rs : list record) (off' : nat) :
    parse_record depth data off q = Ok (l, r) ->
    decoded depth data kinds (off + l) rs off' ->
    decoded depth data (q :: kinds) off (r :: rs) off'.

(** The records of a message with header [h], in the order of the four
    loops of [parse_response]. *)
Definition header_kinds (h : header) : list bool :=
  repeat true (N.to_nat (res_qdcount h))
  ++ repeat false (N.to_nat (res_ancount h))
  ++ repeat false (N.to_nat (res_nscount h))
  ++ repeat false (N.to_nat (res_arcount h)).

(** The label syntax that [VALID_HOSTNAME] is written for: 1 to 63 bytes
    of the class, not starting and not ending with a hyphen. *)
Definition label_syntax (body : bytes) : Prop :=
  1 <= length body <= 63
  /\ Forall (fun c => in_class c = true) body
  /\ (forall s, body <> hyphen :: s)
  /\ (forall s, body <> s ++ [hyphen]).

(** What the pattern lets through: such a label, alone or followed by one
    newline byte. *)
Definition accepted_label (x : bytes) : Prop :=
  exists body, label_syntax body /\ (x = body \/ x = body ++ [newline]).

(** ** Example messages *)

(** Two questions; the second is nothing but a pointer to the name of the
    first, at offset 12. *)
Definition two_questions : bytes :=
  [x12; x34; x01; x00; x00; x02; x00; x00; x00; x00; x00; x00]
  ++ [x03] ++ B "www" ++ [x05] ++ B "baidu" ++ [x03] ++ B "com" ++ [x00]
  ++ [x00; x01; x00; x01]
  ++ [xc0; x0c] ++ [x00; x01; x00; x01].

(** A name that is a pointer to itself. *)
Definition self_pointer : bytes := [xc0; x00].

(** The query for [b"a.bc"], type A, with the transaction id [12 34]. *)
Definition query_a_bc : bytes :=
  [x12; x34; x01; x00; x00; x01; x00; x00; x00; x00; x00; x00]
  ++ [x01] ++ B "a" ++ [x02] ++ B "bc" ++ [x00]
  ++ [x00; x01; x00; x01].

(** A reply header: QR, RD and RA set, one question, one answer. *)
Definition reply_header : bytes :=
  [x12; x34; x81; x80; x00; x01; x00; x01; x00; x00; x00; x00].

(** Two query headers that differ in Opcode, AA and RD only. *)
Definition header_opcode_15 : bytes :=
  [x12; x34; x7d; x00; x00; x01; x00; x00; x00; x00; x00; x00].
Definition header_opcode_0 : bytes :=
  [x12; x34; x00; x00; x00; x01; x00; x00; x00; x00; x00; x00].

(** A reply whose only answer is a TXT record (type 16) that announces 10
    bytes of RDATA (RDLENGTH at offsets 29 and 30) while the buffer ends
    after 2 of them. *)
Definition truncated_txt : bytes :=
  [x12; x34; x81; x80; x00; x01; x00; x01; x00; x00; x00; x00]
  ++ [x01] ++ B "a" ++ [x00] ++ [x00; x01; x00; x01]
  ++ [xc0; x0c] ++ [x00; x10; x00; x01; x00; x00; x00; x3c; x00; x0a]
  ++ [x01; x02].

(** A reply with one question and no other record. *)
Definition one_question : bytes :=
  [x12; x34; x81; x80; x00; x01; x00; x00; x00; x00; x00; x00]
  ++ [x01] ++ B "a" ++ [x00] ++ [x00; x01; x00; x01].

(** A reply with one question and one A record, complete, and the same
    reply cut one byte short. *)
Definition reply_a : bytes :=
  [x12; x34; x81; x80; x00; x01; x00; x01; x00; x00; x00; x00]
  ++ [x01] ++ B "a" ++ [x00] ++ [x00; x01; x00; x01]
  ++ [xc0; x0c] ++ [x00; x01; x00; x01; x00; x00; x00; x3c; x00; x04]
  ++ [x01; x02; x03; x04].
Definition reply_a_short : bytes := removelast reply_a.

Ltac solve_labels :=
  repeat (apply Forall_cons; [unfold wire_label; simpl; lia|]);
  apply Forall_nil.

(** * Properties *)

(** ** Byte strings *)

Section ByteStrings.

Variable c : byte.

Lemma lstrip_repeat (n : nat) (s : bytes) :
  lstrip c (repeat c n ++ s) = lstrip c s.
Proof.
  induction n as [|n IH]; simpl; [reflexivity|].
  rewrite (Byte.byte_dec_lb (eq_refl c)). exact IH.
Qed.

Lemma strip_repeat (n : nat) (s : bytes) :
  strip c (repeat c n ++ s) = strip c s.
Proof. unfold strip. now rewrite lstrip_repeat. Qed.

Lemma split_not_nil (s : bytes) : split c s <> [].
Proof.
  destruct s as [|x s]; simpl; [discriminate|].
  destruct (Byte.eqb x c); [discriminate|].
  destruct (split c s); discriminate.
Qed.

Lemma join_cons (l : bytes) (ls : list bytes) :
  ls <> [] -> join [c] (l :: ls) = l ++ c :: join [c] ls.
Proof. destruct ls; [congruence | reflexivity]. Qed.

Lemma join_split (s : bytes) : join [c] (split c s) = s.
Proof.
  induction s as [|x s IH]; simpl; [reflexivity|].
  destruct (Byte.eqb x c) eqn:E.
  - apply Byte.byte_dec_bl in E. subst x.
    rewrite join_cons by apply split_not_nil.
    simpl. now rewrite IH.
  - pose proof (split_not_nil s) as Hne.
    destruct (split c s) as [|l ls]; [congruence|].
    destruct ls as [|l' ls].
    + simpl in *. now rewrite IH.
    + rewrite join_cons by discriminate.
      rewrite join_cons in IH by discriminate.
      rewrite <- IH. reflexivity.
Qed.

Lemma split_snoc_sep (s : bytes) : split c (s ++ [c]) = split c s ++ [[]].
Proof.
  induction s as [|x s IH]; simpl.
  - now rewrite (Byte.byte_dec_lb (eq_refl c)).
  - destruct (Byte.eqb x c); rewrite IH; [reflexivity|].
    pose proof (split_not_nil s) as Hne.
    destruct (split c s); [congruence | reflexivity].
Qed.

End ByteStrings.

Lemma strip_app_repeat (c : byte) (n : nat) (s : bytes) :
  strip c (s ++ repeat c n) = strip c s.
Proof.
  unfold strip.
  assert (Hl : lstrip c (s ++ repeat c n) = lstrip c s ++ repeat c n
               \/ lstrip c (s ++ repeat c n) = [] /\ lstrip c s = []).
  { induction s as [|x s IH]; simpl.
    - right. split; [|reflexivity].
      rewrite <- (app_nil_r (repeat c n)). apply lstrip_repeat.
    - destruct (Byte.eqb x c); [exact IH | now left]. }
  destruct Hl as [-> | [-> ->]]; [|reflexivity].
  unfold rstrip. now rewrite rev_app_distr, rev_repeat, lstrip_repeat.
Qed.

Lemma slice_app (pre mid post : bytes) :
  slice (pre ++ mid ++ post) (length pre) (length pre + length mid) = mid.
Proof.
  unfold slice.
  rewrite skipn_app, Nat.sub_diag, skipn_all. simpl.
  replace (length pre + length mid - length pre) with (length mid) by lia.
  rewrite firstn_app, Nat.sub_diag, firstn_all. simpl.
  apply app_nil_r.
Qed.

Lemma index_app (pre : bytes) (x : byte) (post : bytes) :
  index (pre ++ x :: post) (length pre) = Ok x.
Proof.
  unfold index. rewrite nth_error_app2 by lia.
  now rewrite Nat.sub_diag.
Qed.

Lemma index_past (data : bytes) (p : nat) :
  length data <= p -> index data p = Raise IndexError.
Proof.
  intros H. unfold index.
  now rewrite (proj2 (nth_error_None data p) H).
Qed.

(** ** Length bytes *)

Lemma chr_ord (d : nat) :
  d <= 255 -> exists c, chr d = [c] /\ ord c = N.of_nat d.
Proof.
  intros Hd. unfold chr, ord.
  destruct (Byte.of_N (N.of_nat d)) as [c|] eqn:E.
  - exists c. split; [reflexivity|]. now apply Byte.to_of_N.
  - apply Byte.of_N_None_iff in E. lia.
Qed.

Lemma is_pointer_small (l : N) : (l < 64)%N -> is_pointer l = false.
Proof.
  intros Hl. destruct l as [|p]; [reflexivity|].
  do 6 (destruct p as [p|p|]; try reflexivity).
  all: lia.
Qed.

Lemma is_pointer_positive (l : N) : is_pointer l = true -> (0 <? l)%N = true.
Proof.
  destruct l; [discriminate|]. intros _. reflexivity.
Qed.

Lemma encode_labels_cons (label : bytes) (labels : list bytes) :
  encode_labels (label :: labels) =
  chr (length label) ++ label ++ encode_labels labels.
Proof. unfold encode_labels. simpl. now rewrite <- app_assoc. Qed.

Lemma wire_label_plain (labels : list bytes) :
  Forall wire_label labels -> Forall plain_label labels.
Proof.
  apply Forall_impl. intros label [H1 H63]. split; [lia|].
  apply is_pointer_small. lia.
Qed.

Lemma encode_labels_length (labels : list bytes) :
  Forall plain_label labels -> length labels <= length (encode_labels labels).
Proof.
  induction 1 as [|label labels [[_ H255] _] _ IH]; [simpl; lia|].
  rewrite encode_labels_cons.
  destruct (chr_ord (d := length label)) as (c & -> & _); [lia|].
  simpl. rewrite length_app. lia.
Qed.

(** ** [build_address] *)

Example build_address_example :
  build_address (B "www.baidu.com") =
  Some ([x03] ++ B "www" ++ [x05] ++ B "baidu" ++ [x03] ++ B "com" ++ [x00]).
Proof. reflexivity. Qed.

Lemma build_labels_Some (labels : list bytes) :
  Forall (fun label => length label <= 63) labels ->
  forall results,
    build_labels labels results =
    Some (results ++ flat_map (fun label => [chr (length label); label]) labels).
Proof.
  induction 1 as [|label labels H63 _ IH]; intros results; simpl.
  - now rewrite app_nil_r.
  - destruct (Nat.ltb_spec 63 (length label)); [lia|].
    rewrite IH, <- app_assoc. reflexivity.
Qed.

Lemma build_labels_None (labels : list bytes) :
  Exists (fun label => 63 < length label) labels ->
  forall results, build_labels labels results = None.
Proof.
  induction 1 as [label labels H63 | label labels _ IH]; intros results; simpl.
  - now destruct (Nat.ltb_spec 63 (length label)); [|lia].
  - destruct (63 <? length label); [reflexivity | apply IH].
Qed.

Lemma concat_length_label (labels : list bytes) :
  concat (flat_map (fun label => [chr (length label); label]) labels) =
  encode_labels labels.
Proof.
  induction labels as [|label labels IH]; [reflexivity|].
  rewrite encode_labels_cons. simpl. now rewrite IH.
Qed.

Lemma build_address_Some (address : bytes) :
  Forall (fun label => length label <= 63) (split dot (strip dot address)) ->
  build_address address =
  Some (encode_labels (split dot (strip dot address)) ++ [x00]).
Proof.
  intros H. unfold build_address.
  rewrite (build_labels_Some H). simpl.
  rewrite concat_app, concat_length_label. reflexivity.
Qed.

Lemma build_address_None (address : bytes) :
  Exists (fun label => 63 < length label) (split dot (strip dot address)) ->
  build_address address = None.
Proof.
  intros H. unfold build_address. now rewrite (build_labels_None H).
Qed.

(** ** The label loop of [parse_name] *)

(** Reading a run of labels: the loop takes one turn per label and arrives
    just behind the run with the labels appended. *)
Lemma parse_name_loop_labels (rec : nat -> result (nat * bytes))
    (offset : nat) (post : bytes) (labels : list bytes) :
  Forall plain_label labels ->
  forall (fuel : nat) (pre : bytes) (acc : list bytes),
    length labels <= fuel ->
    parse_name_loop fuel rec (pre ++ encode_labels labels ++ post)
      offset (length pre) acc =
    parse_name_loop (fuel - length labels) rec
      (pre ++ encode_labels labels ++ post)
      offset (length pre + length (encode_labels labels)) (acc ++ labels).
Proof.
  induction 1 as [|label labels [[H1 H255] Hplain] _ IH];
    intros fuel pre acc Hfuel.
  - simpl. now rewrite Nat.sub_0_r, Nat.add_0_r, app_nil_r.
  - destruct fuel as [|fuel]; [simpl in Hfuel; lia|].
    rewrite encode_labels_cons.
    destruct (chr_ord (d := length label)) as (c & Hc & Hord); [lia|].
    rewrite Hc.
    set (data := pre ++ ([c] ++ label ++ encode_labels labels) ++ post).
    assert (Hidx : index data (length pre) = Ok c)
      by (subst data; simpl; apply index_app).
    assert (Hd : data = (pre ++ c :: label) ++ encode_labels labels ++ post)
      by (subst data; rewrite <- !app_assoc; reflexivity).
    assert (Hsl : slice data (length pre + 1) (length pre + 1 + length label)
                  = label).
    { replace data with ((pre ++ [c]) ++ label ++ encode_labels labels ++ post)
        by (subst data; rewrite <- !app_assoc; reflexivity).
      replace (length pre + 1) with (length (pre ++ [c]))
        by (rewrite length_app; reflexivity).
      apply slice_app. }
    cbn [parse_name_loop]. rewrite Hidx. cbn [bind].
    rewrite Hord.
    replace (0 <? N.of_nat (length label))%N with true
      by (symmetry; apply N.ltb_lt; lia).
    rewrite Hplain, Nat2N.id, Hsl.
    replace (length pre + 1 + length label) with (length (pre ++ c :: label))
      by (rewrite length_app; simpl; lia).
    clearbody data. subst data.
    rewrite IH by (simpl in Hfuel; lia).
    cbn [length]. rewrite Nat.sub_succ.
    f_equal.
    + cbn [app]. rewrite !length_app. cbn [length]. rewrite length_app. lia.
    + now rewrite <- app_assoc.
Qed.

Lemma parse_name_loop_eq (fuel : nat) (rec : nat -> result (nat * bytes))
    (data : bytes) (offset p : nat) (labels : list bytes) :
  parse_name_loop fuel rec data offset p labels =
  (c <- index data p ;;
   let l := ord c in
   if (0 <? l)%N then
     if is_pointer l then
       pointer <- unpack_H (slice data p (p + 2)) ;;
       r <- rec (N.to_nat (N.land pointer 0x3FFF)) ;;
       Ok (p + 2 - offset, join [dot] (labels ++ [snd r]))
     else
       match fuel with
       | O => Raise IndexError
       | S fuel' =>
           parse_name_loop fuel' rec data offset (p + 1 + N.to_nat l)
             (labels ++ [slice data (p + 1) (p + 1 + N.to_nat l)])
       end
   else Ok (p - offset + 1, join [dot] labels)).
Proof. destruct fuel; reflexivity. Qed.

(** The fuel of the loop is not observable: any two amounts that cover
    the bytes left of [data] give the same result, so the loop of the
    source, which has no such counter, is the one modelled. *)
Lemma parse_name_loop_fuel (rec : nat -> result (nat * bytes))
    (data : bytes) (offset : nat) (fuel1 : nat) :
  forall (fuel2 p : nat) (labels : list bytes),
    length data <= fuel1 + p + 1 ->
    length data <= fuel2 + p + 1 ->
    parse_name_loop fuel1 rec data offset p labels =
    parse_name_loop fuel2 rec data offset p labels.
Proof.
  induction fuel1 as [|fuel1 IH]; intros fuel2 p labels H1 H2;
    rewrite (parse_name_loop_eq _ _ _ _ p), (parse_name_loop_eq fuel2).
  - destruct (index data p) as [c|e]; [|reflexivity]. cbn [bind].
    cbv zeta. destruct (0 <? ord c)%N eqn:Hpos; [|reflexivity].
    destruct (is_pointer (ord c)); [reflexivity|].
    destruct fuel2 as [|fuel2]; [reflexivity|].
    rewrite parse_name_loop_eq, index_past by lia. reflexivity.
  - destruct (index data p) as [c|e]; [|reflexivity]. cbn [bind].
    cbv zeta. destruct (0 <? ord c)%N eqn:Hpos; [|reflexivity].
    destruct (is_pointer (ord c)); [reflexivity|].
    destruct fuel2 as [|fuel2].
    + rewrite parse_name_loop_eq, index_past by lia. reflexivity.
    + apply IH; lia.
Qed.

(** C10: name encoding ignores leading dots as well as trailing dots: the
    hostname prefixed by any number of ['.'] bytes (and likewise followed
    by any number of them) is encoded to exactly the bytes of the hostname
    itself. *)
Theorem build_address_ignores_outer_dots (m n : nat) (address : bytes) :
  build_address (repeat dot m ++ address) = build_address address /\
  build_address (address ++ repeat dot n) = build_address address.
Proof.
  unfold build_address.
  now rewrite strip_repeat, strip_app_repeat.
Qed.

(** C1 (as amended): for every hostname whose labels, once leading and
    trailing dots are stripped, are each between 1 and 63 bytes long, the
    name encoder succeeds, and decoding its bytes from offset 0 consumes
    all of them and gives back the stripped hostname, hence the identical
    label sequence.  This holds whatever the encoded length. *)
Theorem build_address_parse_name_roundtrip (depth : nat) (address : bytes) :
  Forall wire_label (split dot (strip dot address)) ->
  exists encoded name,
    build_address address = Some encoded /\
    parse_name (S depth) encoded 0 = Ok (length encoded, name) /\
    name = strip dot address /\
    split dot name = split dot (strip dot address).
Proof.
  intros Hwire.
  set (labels := split dot (strip dot address)) in *.
  exists (encode_labels labels ++ [x00]), (strip dot address).
  repeat split.
  - apply build_address_Some. fold labels.
    eapply Forall_impl; [|exact Hwire]. intros l [_ H]. exact H.
  - cbn [parse_name].
    pose proof (wire_label_plain Hwire) as Hplain.
    pose proof (encode_labels_length Hplain) as Hlen.
    pose proof (parse_name_loop_labels (parse_name depth (encode_labels labels ++ [x00]))
                  0 [x00] Hplain (fuel := length (encode_labels labels ++ [x00]))
                  [] []) as Hloop.
    cbn [app length] in Hloop.
    rewrite Hloop by (rewrite length_app; lia).
    rewrite parse_name_loop_eq, index_app.
    cbn. unfold labels. rewrite join_split, length_app.
    f_equal. f_equal. simpl. lia.
Qed.

Lemma build_address_parse_name_roundtrip_witness :
  Forall wire_label (split dot (strip dot (B "www.baidu.com"))) /\
  exists encoded name,
    build_address (B "www.baidu.com") = Some encoded /\
    parse_name 1 encoded 0 = Ok (length encoded, name) /\
    name = strip dot (B "www.baidu.com") /\
    split dot name = split dot (strip dot (B "www.baidu.com")).
Proof.
  assert (H : Forall wire_label (split dot (strip dot (B "www.baidu.com"))))
    by (change (split dot (strip dot (B "www.baidu.com")))
          with [B "www"; B "baidu"; B "com"]; solve_labels).
  split; [exact H|].
  exact (build_address_parse_name_roundtrip 0 (B "www.baidu.com") H).
Defined.

(** C1 (as stated) fails on a hostname with an empty inner label: the
    labels of [b"a..b"] are [a], the empty label and [b], each at most 63
    bytes, the encoding [01 61 00 01 62 00] is 6 bytes long, and decoding
    it stops at the length byte 0 of the empty label: 3 bytes consumed,
    name [b"a"]. *)
Lemma build_address_parse_name_empty_label :
  Forall (fun label => length label <= 63) (split dot (strip dot (B "a..b"))) /\
  build_address (B "a..b") =
    Some [x01; "a"%byte; x00; x01; "b"%byte; x00] /\
  length [x01; "a"%byte; x00; x01; "b"%byte; x00] <= 255 /\
  (forall depth,
     parse_name (S depth) [x01; "a"%byte; x00; x01; "b"%byte; x00] 0 =
     Ok (3, B "a")) /\
  split dot (B "a") <> split dot (strip dot (B "a..b")).
Proof.
  split; [|split; [|split; [|split]]].
  - change (split dot (strip dot (B "a..b"))) with [B "a"; []; B "b"].
    repeat (apply Forall_cons; [simpl; lia|]). apply Forall_nil.
  - reflexivity.
  - simpl. lia.
  - intros depth. reflexivity.
  - discriminate.
Qed.

(** C8: when the label loop of the decoder, having read the labels
    [labels] from [offset = length pre] (any labels that it reads as such),
    meets a byte with both top bits set, it decodes the name at the 14-bit offset that this byte and the
    next one point to, appends it to the labels read so far and reports
    the bytes of those labels plus exactly 2 for the pointer; a name that
    is nothing but a pointer decodes to the text of the pointed-to name
    and consumes exactly 2 bytes. *)
Theorem parse_name_pointer (depth : nat) (pre : bytes) (labels : list bytes)
    (hi lo : byte) (post : bytes) (n : nat) (name : bytes) :
  let data := pre ++ encode_labels labels ++ hi :: lo :: post in
  let target := N.to_nat (N.land (be16 hi lo) 0x3FFF) in
  Forall plain_label labels ->
  is_pointer (ord hi) = true ->
  parse_name depth data target = Ok (n, name) ->
  parse_name (S depth) data (length pre) =
    Ok (length (encode_labels labels) + 2, join [dot] (labels ++ [name]))
  /\ (labels = [] -> parse_name (S depth) data (length pre) = Ok (2, name)).
Proof.
  intros data target Hwire Hptr Hrec.
  assert (Hmain : parse_name (S depth) data (length pre) =
                  Ok (length (encode_labels labels) + 2,
                      join [dot] (labels ++ [name]))).
  { cbn [parse_name].
    pose proof (encode_labels_length Hwire) as Hlen.
    assert (Hfuel : length labels <= length data)
      by (unfold data; rewrite !length_app; lia).
    unfold data at 2 3.
    rewrite (parse_name_loop_labels _ _ _ Hwire _ _ Hfuel).
    fold data. cbn [app].
    assert (Hd : data = (pre ++ encode_labels labels) ++ [hi; lo] ++ post)
      by (unfold data; rewrite <- app_assoc; reflexivity).
    rewrite <- length_app.
    rewrite parse_name_loop_eq.
    rewrite Hd at 1. cbn [app]. rewrite index_app. cbn [bind]. cbv zeta.
    rewrite (is_pointer_positive _ Hptr), Hptr.
    rewrite Hd at 1.
    change 2 with (length [hi; lo]) at 1.
    rewrite slice_app. cbn [unpack_H bind].
    fold target. rewrite Hrec. cbn [bind snd].
    f_equal. f_equal.
    rewrite length_app. lia. }
  split; [exact Hmain|].
  intros ->. exact Hmain.
Qed.

Lemma parse_name_pointer_witness :
  Forall plain_label [] /\
  is_pointer (ord xc0) = true /\
  parse_name 1 two_questions 12 = Ok (15, B "www.baidu.com") /\
  parse_name 2 two_questions 31 = Ok (2, B "www.baidu.com").
Proof.
  assert (Hrec : parse_name 1 two_questions 12 = Ok (15, B "www.baidu.com"))
    by reflexivity.
  split; [apply Forall_nil | split; [reflexivity | split; [exact Hrec|]]].
  exact (proj2 (parse_name_pointer 1 (firstn 31 two_questions) (labels := [])
                  xc0 x0c [x00; x01; x00; x01]
                  (Forall_nil _) eq_refl Hrec) eq_refl).
Defined.

(** ** Pointer chains and the recursion of [parse_name] *)

Lemma next_pointer_loop_eq (fuel : nat) (data : bytes) (p : nat) :
  next_pointer_loop fuel data p =
  match index data p with
  | Raise _ => None
  | Ok c =>
      if (0 <? ord c)%N then
        if is_pointer (ord c) then
          match unpack_H (slice data p (p + 2)) with
          | Ok pointer => Some (N.to_nat (N.land pointer 0x3FFF))
          | Raise _ => None
          end
        else
          match fuel with
          | O => None
          | S fuel' => next_pointer_loop fuel' data (p + 1 + N.to_nat (ord c))
          end
      else None
  end.
Proof. unfold index. destruct fuel; simpl; destruct (nth_error data p); reflexivity. Qed.

Lemma unpack_H_raise (s : bytes) (e : exn) :
  unpack_H s = Raise e -> e = StructError.
Proof.
  destruct s as [|? [|? [|? ?]]]; simpl; intros H; inversion H; reflexivity.
Qed.

Section Loop.

Variables (data : bytes) (offset : nat).

(** The loop calls [rec] at the target of the pointer it meets, and
    nowhere else. *)
Lemma parse_name_loop_ext (rec rec' : nat -> result (nat * bytes))
    (fuel : nat) :
  forall (p : nat) (labels : list bytes),
    (forall t, next_pointer_loop fuel data p = Some t -> rec t = rec' t) ->
    parse_name_loop fuel rec data offset p labels =
    parse_name_loop fuel rec' data offset p labels.
Proof.
  induction fuel as [|fuel IH]; intros p labels Hrec;
    rewrite (parse_name_loop_eq _ rec), (parse_name_loop_eq _ rec');
    rewrite next_pointer_loop_eq in Hrec;
    destruct (index data p) as [c|e]; cbn [bind]; try reflexivity;
    cbv zeta;
    destruct (0 <? ord c)%N; try reflexivity;
    destruct (is_pointer (ord c)); try reflexivity.
  - destruct (unpack_H (slice data p (p + 2))) as [v|e]; cbn [bind];
      [|reflexivity].
    now rewrite (Hrec _ eq_refl).
  - destruct (unpack_H (slice data p (p + 2))) as [v|e]; cbn [bind];
      [|reflexivity].
    now rewrite (Hrec _ eq_refl).
  - apply IH. exact Hrec.
Qed.

(** An exception of the recursive call passes through the loop. *)
Lemma parse_name_loop_raise (rec : nat -> result (nat * bytes)) (e : exn)
    (fuel : nat) :
  forall (p : nat) (labels : list bytes) (t : nat),
    next_pointer_loop fuel data p = Some t ->
    rec t = Raise e ->
    parse_name_loop fuel rec data offset p labels = Raise e.
Proof.
  induction fuel as [|fuel IH]; intros p labels t Hnext Hrec;
    rewrite parse_name_loop_eq;
    rewrite next_pointer_loop_eq in Hnext;
    destruct (index data p) as [c|e']; cbn [bind]; try discriminate;
    cbv zeta;
    destruct (0 <? ord c)%N; try discriminate;
    destruct (is_pointer (ord c)); try discriminate.
  - destruct (unpack_H (slice data p (p + 2))) as [v|e']; [|discriminate].
    injection Hnext as <-. cbn [bind]. now rewrite Hrec.
  - destruct (unpack_H (slice data p (p + 2))) as [v|e']; [|discriminate].
    injection Hnext as <-. cbn [bind]. now rewrite Hrec.
  - eapply IH; eassumption.
Qed.

(** The loop itself never raises [RecursionError]. *)
Lemma parse_name_loop_own_errors (rec : nat -> result (nat * bytes))
    (fuel : nat) :
  forall (p : nat) (labels : list bytes),
    (forall t, next_pointer_loop fuel data p = Some t ->
               rec t <> Raise RecursionError) ->
    parse_name_loop fuel rec data offset p labels <> Raise RecursionError.
Proof.
  induction fuel as [|fuel IH]; intros p labels Hrec;
    rewrite parse_name_loop_eq;
    rewrite next_pointer_loop_eq in Hrec;
    unfold index in *; destruct (nth_error data p) as [c|]; cbn [bind];
    try discriminate;
    cbv zeta;
    destruct (0 <? ord c)%N; try discriminate;
    destruct (is_pointer (ord c)); try discriminate.
  - destruct (unpack_H (slice data p (p + 2))) as [v|e] eqn:Hu; cbn [bind].
    + specialize (Hrec _ eq_refl).
      destruct (rec (N.to_nat (N.land v 16383))) as [r|e];
        cbn [bind]; [discriminate | exact Hrec].
    + apply unpack_H_raise in Hu. subst e. discriminate.
  - destruct (unpack_H (slice data p (p + 2))) as [v|e] eqn:Hu; cbn [bind].
    + specialize (Hrec _ eq_refl).
      destruct (rec (N.to_nat (N.land v 16383))) as [r|e];
        cbn [bind]; [discriminate | exact Hrec].
    + apply unpack_H_raise in Hu. subst e. discriminate.
  - apply IH. exact Hrec.
Qed.

End Loop.

Section Chains.

Variable data : bytes.

Lemma chain_add (a b : nat) :
  forall offset,
    chain data offset (a + b) =
    match chain data offset a with
    | Some o => chain data o b
    | None => None
    end.
Proof.
  induction a as [|a IH]; intros offset; simpl; [reflexivity|].
  destruct (next_pointer data offset); [apply IH | reflexivity].
Qed.

Lemma chain_prefix (a b : nat) (offset : nat) :
  chain data offset (a + b) <> None -> chain data offset a <> None.
Proof.
  rewrite chain_add. destruct (chain data offset a); congruence.
Qed.

(** A chain that comes back to an offset it has visited goes on for ever. *)
Lemma chain_revisit (offset i j o : nat) :
  i < j ->
  chain data offset i = Some o ->
  chain data offset j = Some o ->
  forall k, chain data offset k <> None.
Proof.
  intros Hij Hi Hj.
  assert (Hloop : chain data o (j - i) = Some o).
  { replace j with (i + (j - i)) in Hj by lia.
    now rewrite chain_add, Hi in Hj. }
  assert (Hturns : forall n, chain data o (n * (j - i)) = Some o).
  { induction n as [|n IH]; [reflexivity|].
    simpl. now rewrite chain_add, Hloop. }
  assert (Hfrom : forall k, chain data o k <> None).
  { intros k. apply chain_prefix with (b := k * (j - i) - k).
    replace (k + (k * (j - i) - k)) with (k * (j - i)) by nia.
    rewrite Hturns. discriminate. }
  intros k. destruct (Nat.le_gt_cases k i) as [Hk|Hk].
  - apply chain_prefix with (b := i - k).
    replace (k + (i - k)) with i by lia. congruence.
  - replace k with (i + (k - i)) by lia.
    rewrite chain_add, Hi. apply Hfrom.
Qed.

(** A chain that stops does so at an offset without a pointer. *)
Lemma chain_end (depth : nat) :
  forall offset,
    chain data offset depth = None ->
    exists k o, k < depth /\ chain data offset k = Some o
                /\ next_pointer data o = None.
Proof.
  induction depth as [|depth IH]; intros offset H; [discriminate|].
  simpl in H. destruct (next_pointer data offset) as [t|] eqn:Hnext.
  - destruct (IH _ H) as (k & o & Hk & Hc & Hn).
    exists (S k), o. simpl. rewrite Hnext. repeat split; [lia | | ]; assumption.
  - exists 0, offset. repeat split; [lia | assumption].
Qed.

(** With room for [depth] nested calls, a chain of [depth] pointers or
    more runs into the recursion limit. *)
Lemma parse_name_too_deep (depth : nat) :
  forall offset,
    chain data offset depth <> None ->
    parse_name depth data offset = Raise RecursionError.
Proof.
  induction depth as [|depth IH]; intros offset H; [reflexivity|].
  simpl in H. destruct (next_pointer data offset) as [t|] eqn:Hnext;
    [|congruence].
  cbn [parse_name].
  eapply parse_name_loop_raise; [exact Hnext|].
  apply IH, H.
Qed.

(** A chain of [k] pointers is decoded within [k + 1] nested calls, and
    more room changes nothing. *)
Lemma parse_name_enough_depth (k : nat) :
  forall offset o depth,
    chain data offset k = Some o ->
    next_pointer data o = None ->
    k < depth ->
    parse_name depth data offset = parse_name (S k) data offset
    /\ parse_name depth data offset <> Raise RecursionError.
Proof.
  induction k as [|k IH]; intros offset o depth Hc Hn Hk;
    (destruct depth as [|depth]; [lia|]); cbn [parse_name]; simpl in Hc.
  - injection Hc as <-. split.
    + apply parse_name_loop_ext. intros t Ht.
      unfold next_pointer in Hn. congruence.
    + apply parse_name_loop_own_errors. intros t Ht.
      unfold next_pointer in Hn. congruence.
  - destruct (next_pointer data offset) as [t|] eqn:Hnext; [|discriminate].
    destruct (IH t o depth Hc Hn ltac:(lia)) as [Heq Hne].
    assert (Ht : forall t', next_pointer_loop (length data) data offset = Some t'
                            -> t' = t)
      by (unfold next_pointer in Hnext; congruence).
    split.
    + apply parse_name_loop_ext. intros t' Ht'.
      rewrite (Ht _ Ht'). exact Heq.
    + apply parse_name_loop_own_errors. intros t' Ht'.
      rewrite (Ht _ Ht'). exact Hne.
Qed.

End Chains.

(** C2 (as amended): the decoder keeps no set of visited offsets and no
    depth bound of its own.  With room for [depth] nested calls it ends in
    the interpreter's [RecursionError] exactly when the pointer chain from
    the offset has [depth] pointers or more; so a chain that revisits an
    offset ends in [RecursionError] whatever the recursion limit, and a
    chain of [k < depth] pointers gives the result of [k + 1] nested calls,
    which does not depend on the limit. *)
Theorem parse_name_recursion_limit (depth : nat) (data : bytes) (offset : nat) :
  (parse_name depth data offset = Raise RecursionError
   <-> chain data offset depth <> None) /\
  (forall i j o,
     i < j -> chain data offset i = Some o -> chain data offset j = Some o ->
     parse_name depth data offset = Raise RecursionError) /\
  (forall k o,
     chain data offset k = Some o -> next_pointer data o = None -> k < depth ->
     parse_name depth data offset = parse_name (S k) data offset).
Proof.
  split; [split|split].
  - intros Hrec. destruct (chain data offset depth) eqn:Hc; [discriminate|].
    destruct (@chain_end data depth offset Hc) as (k & o & Hk & Hko & Hn).
    destruct (@parse_name_enough_depth data k offset o depth Hko Hn Hk)
      as [_ Hne].
    contradiction.
  - apply parse_name_too_deep.
  - intros i j o Hij Hi Hj.
    apply parse_name_too_deep. eapply chain_revisit; eassumption.
  - intros k o Hc Hn Hk.
    apply (@parse_name_enough_depth data k offset o depth Hc Hn Hk).
Qed.

Lemma parse_name_recursion_limit_witness :
  parse_name 1000 self_pointer 0 = Raise RecursionError /\
  parse_name 1000 two_questions 31 = parse_name 2 two_questions 31.
Proof.
  split.
  - apply (proj1 (proj2 (parse_name_recursion_limit 1000 self_pointer 0)) 0 1 0);
      [lia | reflexivity | reflexivity].
  - apply (proj2 (proj2 (parse_name_recursion_limit 1000 two_questions 31)) 1 12);
      [reflexivity | reflexivity | lia].
Defined.

(** C2 (as stated) fails on a pointer that points to itself: the chain
    from offset 0 of [c0 00] is back at offset 0 after one pointer, and
    whatever number of nested calls is allowed, the decoder uses them all
    up; no check of its own ends the recursion. *)
Lemma parse_name_self_pointer_unbounded :
  chain self_pointer 0 1 = Some 0 /\
  (forall depth, parse_name depth self_pointer 0 = Raise RecursionError).
Proof.
  split; [reflexivity|].
  intros depth. apply parse_name_too_deep.
  apply (@chain_revisit self_pointer 0 0 1 0); [lia | reflexivity | reflexivity].
Qed.

(** ** [build_request] and [parse_header] *)

Lemma ord_byte_of_N (n : N) : (n < 256)%N -> ord (byte_of_N n) = n.
Proof.
  intros Hn. unfold ord, byte_of_N.
  destruct (Byte.of_N n) as [c|] eqn:E.
  - now apply Byte.to_of_N.
  - apply Byte.of_N_None_iff in E. lia.
Qed.

Lemma be16_pack (v : N) :
  (v < 65536)%N -> be16 (byte_of_N (v / 256)) (byte_of_N (v mod 256)) = v.
Proof.
  intros Hv. unfold be16.
  assert (Hhi : (v / 256 < 256)%N)
    by (apply N.Div0.div_lt_upper_bound; lia).
  assert (Hlo : (v mod 256 < 256)%N) by (apply N.mod_lt; discriminate).
  rewrite (ord_byte_of_N Hhi), (ord_byte_of_N Hlo).
  symmetry. apply N.div_mod. discriminate.
Qed.

Lemma pack_HH_ok (a b : N) :
  (a < 65536)%N -> (b < 65536)%N ->
  pack_HH a b =
  Ok [byte_of_N (a / 256); byte_of_N (a mod 256);
      byte_of_N (b / 256); byte_of_N (b mod 256)].
Proof.
  intros Ha Hb. unfold pack_HH, pack_H.
  now rewrite (proj2 (N.ltb_lt _ _) Ha), (proj2 (N.ltb_lt _ _) Hb).
Qed.

(** What [build_request] returns, by cases on its two possible failures. *)
Lemma build_request_eq (urandom : byte * byte) (address : bytes) (qtype : N) :
  build_request urandom address qtype =
  if (qtype <? 65536)%N then
    match build_address address with
    | Some name =>
        Ok ([fst urandom; snd urandom]
            ++ [x01; x00; x00; x01; x00; x00; x00; x00; x00; x00]
            ++ name
            ++ [byte_of_N (qtype / 256); byte_of_N (qtype mod 256); x00; x01])
    | None => Raise TypeError
    end
  else Raise StructError.
Proof.
  unfold build_request.
  change (pack_BBHHHH 1 0 1 0 0 0)
    with (Ok [x01; x00; x00; x01; x00; x00; x00; x00; x00; x00]).
  cbn [bind].
  destruct (N.ltb_spec qtype 65536) as [Hq|Hq].
  - rewrite pack_HH_ok by (assumption || reflexivity). cbn [bind].
    destruct (build_address address) as [name|]; [|reflexivity].
    cbn [add bind]. f_equal.
  - unfold pack_HH, pack_H.
    now rewrite (proj2 (N.ltb_ge _ _) Hq).
Qed.

(** C4 (as amended): for every hostname whose labels are at most 63 bytes
    long and every 16-bit query type, the built query is the two random
    bytes of the transaction id, then a header with QR=0, Opcode=0, RD set
    (flags bytes [01 00]), QDCOUNT=1 and ANCOUNT=NSCOUNT=ARCOUNT=0, then
    the encoded question name, then the query type and the class IN (1),
    16 bits each in network order. *)
Theorem build_request_layout (urandom : byte * byte) (address : bytes)
    (qtype : N) :
  Forall (fun label => length label <= 63) (split dot (strip dot address)) ->
  (qtype < 65536)%N ->
  exists (name msg : bytes) (t1 t0 : byte),
    build_address address = Some name /\
    build_request urandom address qtype = Ok msg /\
    msg = [fst urandom; snd urandom] ++ [x01; x00]
          ++ [x00; x01] ++ [x00; x00] ++ [x00; x00] ++ [x00; x00]
          ++ name ++ [t1; t0] ++ [x00; x01] /\
    be16 t1 t0 = qtype /\ be16 x00 x01 = QCLASS_IN /\
    rfc_QR msg = 0%N /\ rfc_Opcode msg = 0%N /\ rfc_RD msg = 1%N.
Proof.
  intros Hlabels Hq.
  pose proof (build_address_Some _ Hlabels) as Hname.
  eexists _, _, _, _.
  rewrite build_request_eq, (proj2 (N.ltb_lt _ _) Hq), Hname.
  repeat split; try reflexivity.
  now apply be16_pack.
Qed.

Lemma build_request_layout_witness :
  Forall (fun label => length label <= 63) (split dot (strip dot (B "a.bc"))) /\
  (QTYPE_A < 65536)%N /\
  exists (name msg : bytes) (t1 t0 : byte),
    build_address (B "a.bc") = Some name /\
    build_request (x12, x34) (B "a.bc") QTYPE_A = Ok msg /\
    msg = [x12; x34] ++ [x01; x00]
          ++ [x00; x01] ++ [x00; x00] ++ [x00; x00] ++ [x00; x00]
          ++ name ++ [t1; t0] ++ [x00; x01] /\
    be16 t1 t0 = QTYPE_A /\ be16 x00 x01 = QCLASS_IN /\
    rfc_QR msg = 0%N /\ rfc_Opcode msg = 0%N /\ rfc_RD msg = 1%N.
Proof.
  assert (H : Forall (fun label => length label <= 63)
                (split dot (strip dot (B "a.bc"))))
    by (change (split dot (strip dot (B "a.bc"))) with [B "a"; B "bc"];
        repeat (apply Forall_cons; [simpl; lia|]); apply Forall_nil).
  assert (Hq : (QTYPE_A < 65536)%N) by reflexivity.
  split; [exact H | split; [exact Hq|]].
  exact (build_request_layout (x12, x34) (B "a.bc") H Hq).
Defined.

(** C4 (as stated) fails on the RD bit: the query built for [b"a.bc"] has
    the flags byte [01], whose lowest bit, RD, is set. *)
Lemma build_request_sets_RD :
  build_request (x12, x34) (B "a.bc") QTYPE_A = Ok query_a_bc /\
  rfc_RD query_a_bc = 1%N /\
  rfc_RD query_a_bc <> 0%N.
Proof. repeat split; discriminate. Qed.

(** C9: for every hostname with a label longer than 63 bytes the name
    encoder returns [None], and [build_request], which does not test for
    it, raises [TypeError] when it appends the name to the header. *)
Theorem build_request_label_too_long (urandom : byte * byte) (address : bytes)
    (qtype : N) :
  Exists (fun label => 63 < length label) (split dot (strip dot address)) ->
  (qtype < 65536)%N ->
  build_address address = None /\
  build_request urandom address qtype = Raise TypeError.
Proof.
  intros Hlong Hq.
  pose proof (build_address_None _ Hlong) as Hname.
  split; [exact Hname|].
  now rewrite build_request_eq, (proj2 (N.ltb_lt _ _) Hq), Hname.
Qed.

Lemma build_request_label_too_long_witness :
  Exists (fun label => 63 < length label)
    (split dot (strip dot (repeat "a"%byte 64 ++ B ".com"))) /\
  (QTYPE_A < 65536)%N /\
  build_address (repeat "a"%byte 64 ++ B ".com") = None /\
  build_request (x12, x34) (repeat "a"%byte 64 ++ B ".com") QTYPE_A
    = Raise TypeError.
Proof.
  assert (H : Exists (fun label => 63 < length label)
                (split dot (strip dot (repeat "a"%byte 64 ++ B ".com"))))
    by (change (split dot (strip dot (repeat "a"%byte 64 ++ B ".com")))
          with [repeat "a"%byte 64; B "com"];
        apply Exists_cons_hd; simpl; lia).
  assert (Hq : (QTYPE_A < 65536)%N) by reflexivity.
  split; [exact H | split; [exact Hq|]].
  exact (build_request_label_too_long (x12, x34) _ H Hq).
Defined.

(** A hostname that is empty once the dots are stripped has one empty
    label: it is encoded as two zero bytes, of which the decoder reads the
    first. *)
Example build_address_empty :
  build_address (B "..") = Some [x00; x00] /\
  parse_name 1 [x00; x00] 0 = Ok (1, []).
Proof. split; reflexivity. Qed.

(** A label followed by a pointer: [b] at offset 3, then a pointer to the
    name [a] at offset 0. *)
Example parse_name_label_then_pointer :
  parse_name 2 [x01; "a"%byte; x00; x01; "b"%byte; xc0; x00] 3
  = Ok (4, B "b.a").
Proof. reflexivity. Qed.

(** A label of exactly 63 bytes is encoded. *)
Example build_address_63 :
  build_address (repeat "a"%byte 63 ++ B ".com") =
  Some ([x3f] ++ repeat "a"%byte 63 ++ [x03] ++ B "com" ++ [x00]).
Proof. reflexivity. Qed.

Lemma parse_header_eq (data : bytes) :
  parse_header data =
  if 12 <=? length data then Ok (Some (header_at data)) else Ok None.
Proof.
  unfold parse_header.
  destruct (12 <=? length data) eqn:Hlen; [|reflexivity].
  do 12 (destruct data as [|? data]; [discriminate|]).
  reflexivity.
Qed.

Lemma flag_masks (c : byte) :
  N.land (ord c) 128 = (128 * N.shiftr (ord c) 7)%N /\
  N.land (ord c) 2 = (2 * N.land (N.shiftr (ord c) 1) 1)%N.
Proof. destruct c; split; reflexivity. Qed.

(** C7 (as amended): header parsing returns [None] exactly when the
    buffer is shorter than 12 bytes; otherwise it returns the transaction
    id, the four 16-bit counts, RCODE, and the bits QR, TC and RA as the
    masked flags bytes, not shifted down (QR and RA are 0 or 128, TC is 0
    or 2); Opcode, AA and RD are not part of the result, which is the same
    for two buffers that differ in those bits only; on a built query it
    recovers the transaction id and QR is 0, and on a reply QR is 128. *)
Theorem parse_header_fields (data : bytes) :
  (parse_header data = Ok None <-> length data < 12) /\
  (12 <= length data ->
   parse_header data = Ok (Some (header_at data)) /\
   res_qr (header_at data) = (128 * rfc_QR data)%N /\
   res_tc (header_at data) = (2 * rfc_TC data)%N /\
   res_ra (header_at data) = (128 * rfc_RA data)%N /\
   res_rcode (header_at data) = rfc_RCODE data) /\
  (forall (i1 i0 f1 f1' : byte) (rest : bytes),
     data = i1 :: i0 :: f1 :: rest ->
     N.land (ord f1) 130 = N.land (ord f1') 130 ->
     parse_header data = parse_header (i1 :: i0 :: f1' :: rest)) /\
  (forall urandom address qtype,
     build_request urandom address qtype = Ok data ->
     parse_header data = Ok (Some (header_at data)) /\
     res_id (header_at data) = be16 (fst urandom) (snd urandom) /\
     res_qr (header_at data) = 0%N).
Proof.
  split; [|split; [|split]].
  - rewrite parse_header_eq.
    destruct (Nat.leb_spec 12 (length data)); split;
      try discriminate; try lia; reflexivity.
  - intros Hlen. rewrite parse_header_eq.
    rewrite (proj2 (Nat.leb_le _ _) Hlen).
    split; [reflexivity|].
    unfold header_at, rfc_QR, rfc_TC, rfc_RA, rfc_RCODE; cbn [res_qr res_tc res_ra res_rcode].
    repeat split; apply flag_masks.
  - intros i1 i0 f1 f1' rest -> Hbits.
    rewrite !parse_header_eq. cbn [length].
    destruct (12 <=? S (S (S (length rest)))); [|reflexivity].
    unfold header_at, flags1, flags2. cbn [nth].
    replace (N.land (ord f1) 128) with (N.land (N.land (ord f1) 130) 128)
      by (rewrite <- N.land_assoc; reflexivity).
    replace (N.land (ord f1) 2) with (N.land (N.land (ord f1) 130) 2)
      by (rewrite <- N.land_assoc; reflexivity).
    rewrite Hbits, <- !N.land_assoc. reflexivity.
  - intros urandom address qtype Hreq.
    rewrite build_request_eq in Hreq.
    destruct (qtype <? 65536)%N; [|discriminate].
    destruct (build_address address) as [name|]; [|discriminate].
    injection Hreq as <-.
    rewrite parse_header_eq. repeat split.
Qed.

Lemma parse_header_fields_witness :
  (12 <= length reply_header /\
   parse_header reply_header = Ok (Some (header_at reply_header)) /\
   res_qr (header_at reply_header) = (128 * rfc_QR reply_header)%N) /\
  (build_request (x12, x34) (B "a.bc") QTYPE_A = Ok query_a_bc /\
   res_id (header_at query_a_bc) = be16 x12 x34 /\
   res_qr (header_at query_a_bc) = 0%N).
Proof.
  assert (Hlen : 12 <= length reply_header) by (simpl; lia).
  assert (Hreq : build_request (x12, x34) (B "a.bc") QTYPE_A = Ok query_a_bc)
    by reflexivity.
  split.
  - split; [exact Hlen|].
    destruct (proj1 (proj2 (parse_header_fields reply_header)) Hlen)
      as (Hp & Hqr & _).
    split; [exact Hp | exact Hqr].
  - split; [exact Hreq|].
    destruct (proj2 (proj2 (proj2 (parse_header_fields query_a_bc))) _ _ _ Hreq)
      as (_ & Hid & Hqr).
    split; [exact Hid | exact Hqr].
Defined.

(** C7 (as stated) fails on the flag bits: for a reply the QR field of
    the result is 128, not 1, and two headers with Opcode 15, AA, RD and
    with Opcode 0, no AA, no RD give the same result. *)
Lemma parse_header_reply_qr_128 :
  (exists h, parse_header reply_header = Ok (Some h)
             /\ rfc_QR reply_header = 1%N
             /\ res_qr h = 128%N /\ res_qr h <> 1%N) /\
  rfc_Opcode header_opcode_15 = 15%N /\ rfc_AA header_opcode_15 = 1%N /\
  rfc_RD header_opcode_15 = 1%N /\
  rfc_Opcode header_opcode_0 = 0%N /\ rfc_AA header_opcode_0 = 0%N /\
  rfc_RD header_opcode_0 = 0%N /\
  parse_header header_opcode_15 = parse_header header_opcode_0.
Proof.
  split.
  - eexists. repeat split; discriminate.
  - repeat split.
Qed.

(** ** Records and [parse_response] *)

Lemma bind_Ok {A B : Type} (m : result A) (k : A -> result B) (v : B) :
  bind m k = Ok v -> exists x, m = Ok x /\ k x = Ok v.
Proof. destruct m as [x|e]; [eauto | discriminate]. Qed.

Section Records.

Variables (depth : nat) (data : bytes).

Lemma decoded_fun (kinds : list bool) (off : nat) (rs : list record)
    (off' : nat) :
  decoded depth data kinds off rs off' ->
  forall rs2 off2,
    decoded depth data kinds off rs2 off2 -> rs = rs2 /\ off' = off2.
Proof.
  induction 1 as [off | q kinds off l r rs off' Hr _ IH]; intros rs2 off2 H2;
    inversion H2; subst.
  - split; reflexivity.
  - match goal with H : parse_record _ _ _ _ = Ok (?l', ?r') |- _ =>
      rewrite Hr in H; injection H as <- <- end.
    destruct (IH _ _ ltac:(eassumption)) as [-> ->]. split; reflexivity.
Qed.

Lemma decoded_length (kinds : list bool) (off : nat) (rs : list record)
    (off' : nat) :
  decoded depth data kinds off rs off' -> length rs = length kinds.
Proof. induction 1; simpl; congruence. Qed.

Lemma decoded_app (kinds1 kinds2 : list bool) (off : nat)
    (rs1 : list record) (mid : nat) :
  decoded depth data kinds1 off rs1 mid ->
  forall rs2 off',
    decoded depth data kinds2 mid rs2 off' ->
    decoded depth data (kinds1 ++ kinds2) off (rs1 ++ rs2) off'.
Proof.
  induction 1 as [off | q kinds off l r rs off' Hr _ IH];
    intros rs2 off2 Hrest; simpl; [exact Hrest|].
  econstructor; [exact Hr | apply IH, Hrest].
Qed.

Lemma decoded_app_inv (kinds1 kinds2 : list bool) :
  forall off rs off',
    decoded depth data (kinds1 ++ kinds2) off rs off' ->
    exists rs1 rs2 mid,
      rs = rs1 ++ rs2 /\ decoded depth data kinds1 off rs1 mid
      /\ decoded depth data kinds2 mid rs2 off'.
Proof.
  induction kinds1 as [|q kinds1 IH]; intros off rs off' H; simpl in H.
  - exists [], rs, off. repeat split; [constructor | exact H].
  - inversion H; subst.
    destruct (IH _ _ _ ltac:(eassumption))
      as (rs1 & rs2 & mid & -> & Hd1 & Hd2).
    exists (r :: rs1), rs2, mid.
    repeat split; [econstructor; eassumption | exact Hd2].
Qed.

(** The two collecting loops. *)
Lemma parse_records_decoded (q : bool) (count : nat) :
  forall off acc off' out,
    parse_records depth data q count off acc = Ok (off', out) ->
    exists rs, out = acc ++ rs
               /\ decoded depth data (repeat q count) off rs off'.
Proof.
  induction count as [|count IH]; intros off acc off' out H; simpl in H.
  - injection H as <- <-. exists []. split; [now rewrite app_nil_r | constructor].
  - apply bind_Ok in H. destruct H as ([l r] & Hr & H).
    destruct (IH _ _ _ _ H) as (rs & -> & Hd).
    exists (r :: rs). split; [now rewrite <- app_assoc|].
    simpl. econstructor; eassumption.
Qed.

Lemma decoded_parse_records (q : bool) (count : nat) :
  forall off rs off' acc,
    decoded depth data (repeat q count) off rs off' ->
    parse_records depth data q count off acc = Ok (off', acc ++ rs).
Proof.
  induction count as [|count IH]; intros off rs off' acc H;
    simpl in H; inversion H; subst; simpl.
  - now rewrite app_nil_r.
  - match goal with Hr : parse_record _ _ _ _ = _ |- _ => rewrite Hr end.
    cbn [bind]. erewrite IH by eassumption. now rewrite <- app_assoc.
Qed.

(** The two loops that only advance the offset. *)
Lemma skip_records_decoded (count : nat) :
  forall off off',
    skip_records depth data count off = Ok off' ->
    exists rs, decoded depth data (repeat false count) off rs off'.
Proof.
  induction count as [|count IH]; intros off off' H; simpl in H.
  - injection H as <-. exists []. constructor.
  - apply bind_Ok in H. destruct H as ([l r] & Hr & H).
    destruct (IH _ _ H) as (rs & Hd).
    exists (r :: rs). simpl. econstructor; eassumption.
Qed.

Lemma decoded_skip_records (count : nat) :
  forall off rs off',
    decoded depth data (repeat false count) off rs off' ->
    skip_records depth data count off = Ok off'.
Proof.
  induction count as [|count IH]; intros off rs off' H;
    simpl in H; inversion H; subst; simpl; [reflexivity|].
  match goal with Hr : parse_record _ _ _ _ = _ |- _ => rewrite Hr end.
  cbn [bind]. eapply IH; eassumption.
Qed.

(** A question record carries no address, any other record carries one. *)
Lemma parse_record_ip (off : nat) (q : bool) (l : nat) (r : record) :
  parse_record depth data off q = Ok (l, r) ->
  if q then ip_of r = None else ip_of r <> None.
Proof.
  unfold parse_record. intros H.
  apply bind_Ok in H. destruct H as ([nlen name] & _ & H).
  destruct q; cbn [negb] in H.
  - apply bind_Ok in H. destruct H as ([t c] & _ & H).
    injection H as <- <-. reflexivity.
  - apply bind_Ok in H. destruct H as ([[[t c] ttl] rdlen] & _ & H).
    apply bind_Ok in H. destruct H as (ip & _ & H).
    injection H as <- <-. discriminate.
Qed.

Lemma decoded_ip (q : bool) (count : nat) :
  forall off rs off',
    decoded depth data (repeat q count) off rs off' ->
    Forall (fun r => if q then ip_of r = None else ip_of r <> None) rs.
Proof.
  induction count as [|count IH]; intros off rs off' H;
    simpl in H; inversion H; subst; constructor.
  - eapply parse_record_ip; eassumption.
  - eapply IH; eassumption.
Qed.

(** What a successful [parse_response] has done. *)
Lemma parse_response_Some (resp : DNSResponse) :
  parse_response depth data = Some resp <->
  exists qds ans ns ar o1 o2 o3 o4,
    12 <= length data /\
    decoded depth data
      (repeat true (N.to_nat (res_qdcount (header_at data)))) 12 qds o1 /\
    decoded depth data
      (repeat false (N.to_nat (res_ancount (header_at data)))) o1 ans o2 /\
    decoded depth data
      (repeat false (N.to_nat (res_nscount (header_at data)))) o2 ns o3 /\
    decoded depth data
      (repeat false (N.to_nat (res_arcount (header_at data)))) o3 ar o4 /\
    resp = Response
             match qds with q :: _ => Some (name_of q) | [] => None end
             (map triple qds) (map triple ans).
Proof.
  unfold parse_response, parse_response_body.
  rewrite parse_header_eq.
  destruct (Nat.leb_spec 12 (length data)) as [Hlen|Hlen]; cbn [bind try_except].
  - split.
    + intros H.
      destruct (parse_records depth data true _ 12 []) as [[o1 qds]|e] eqn:H1;
        [|discriminate]; cbn [bind] in H.
      destruct (parse_records depth data false _ o1 []) as [[o2 ans]|e] eqn:H2;
        [|discriminate]; cbn [bind] in H.
      destruct (skip_records depth data _ o2) as [o3|e] eqn:H3;
        [|discriminate]; cbn [bind] in H.
      destruct (skip_records depth data _ o3) as [o4|e] eqn:H4;
        [|discriminate]; cbn [bind try_except] in H.
      apply parse_records_decoded in H1, H2.
      destruct H1 as (qds' & -> & H1). destruct H2 as (ans' & -> & H2).
      apply skip_records_decoded in H3, H4.
      destruct H3 as (ns & H3). destruct H4 as (ar & H4).
      cbn [app] in H. injection H as <-.
      exists qds', ans', ns, ar, o1, o2, o3, o4.
      repeat split; try assumption.
      f_equal. destruct qds' as [|[[[[? ?] ?] ?] ?] ?]; reflexivity.
    + intros (qds & ans & ns & ar & o1 & o2 & o3 & o4
              & _ & H1 & H2 & H3 & H4 & ->).
      rewrite (@decoded_parse_records _ _ _ _ _ [] H1). cbn [bind app].
      rewrite (@decoded_parse_records _ _ _ _ _ [] H2). cbn [bind app].
      rewrite (@decoded_skip_records _ _ _ _ H3). cbn [bind].
      rewrite (@decoded_skip_records _ _ _ _ H4). cbn [bind try_except].
      f_equal. f_equal. destruct qds as [|[[[[? ?] ?] ?] ?] ?]; reflexivity.
  - split; [discriminate|].
    intros (? & ? & ? & ? & ? & ? & ? & ? & H & _). lia.
Qed.

End Records.

Lemma decoded_header_kinds (depth : nat) (data : bytes) (resp : DNSResponse) :
  parse_response depth data = Some resp ->
  exists rs off, decoded depth data (header_kinds (header_at data)) 12 rs off.
Proof.
  intros H. apply parse_response_Some in H.
  destruct H as (qds & ans & ns & ar & o1 & o2 & o3 & o4
                 & _ & H1 & H2 & H3 & H4 & _).
  exists (qds ++ ans ++ ns ++ ar), o4. unfold header_kinds.
  repeat (eapply decoded_app; [eassumption|]). exact H4.
Qed.

(** C3 (as amended): whenever a record, on its name, its fixed fields or
    its RDATA, raises while a response is parsed, [parse_response] returns
    [None], and a response that is returned has had every record of its
    four sections decoded: no partial response, no exception.  RDATA is a
    slice of the buffer, cut at its end: an A or AAAA record whose slice
    is not 4 or 16 bytes long raises, while for a record of another type
    than A, AAAA, CNAME and NS an RDLENGTH that reaches past the end is no
    failure, the record carrying the bytes that are there. *)
Theorem parse_response_aborts (depth : nat) (data : bytes) :
  (length data < 12 -> parse_response depth data = None) /\
  (forall done q todo rs off e,
     header_kinds (header_at data) = done ++ q :: todo ->
     decoded depth data done 12 rs off ->
     parse_record depth data off q = Raise e ->
     parse_response depth data = None) /\
  (forall resp,
     parse_response depth data = Some resp ->
     exists rs off,
       decoded depth data (header_kinds (header_at data)) 12 rs off) /\
  (forall off nlen name af c ttl rdlen,
     parse_name depth data off = Ok (nlen, name) ->
     unpack_HHiH (slice data (off + nlen) (off + nlen + 10))
       = Ok (qtype_of_family af, c, ttl, rdlen) ->
     length (slice data (off + nlen + 10) (off + nlen + 10 + N.to_nat rdlen))
       <> packed_length af ->
     parse_record depth data off false = Raise ValueError) /\
  (forall off nlen name t c ttl rdlen,
     parse_name depth data off = Ok (nlen, name) ->
     unpack_HHiH (slice data (off + nlen) (off + nlen + 10))
       = Ok (t, c, ttl, rdlen) ->
     ~ In t [QTYPE_A; QTYPE_AAAA; QTYPE_CNAME; QTYPE_NS] ->
     parse_record depth data off false =
     Ok (nlen + 10 + N.to_nat rdlen,
         (name,
          Some (Bytes (slice data (off + nlen + 10)
                         (off + nlen + 10 + N.to_nat rdlen))),
          t, c, Some ttl))).
Proof.
  split; [|split; [|split; [|split]]].
  - intros Hshort.
    destruct (parse_response depth data) as [resp|] eqn:Hresp; [|reflexivity].
    apply parse_response_Some in Hresp.
    destruct Hresp as (? & ? & ? & ? & ? & ? & ? & ? & Hlen & _). lia.
  - intros done q todo rs off e Hkinds Hdone Hraise.
    destruct (parse_response depth data) as [resp|] eqn:Hresp; [|reflexivity].
    destruct (decoded_header_kinds _ _ Hresp) as (all & o4 & Hall).
    rewrite Hkinds in Hall.
    apply decoded_app_inv in Hall.
    destruct Hall as (rs1 & rs2 & mid & _ & Hd1 & Hd2).
    destruct (decoded_fun Hdone Hd1) as [_ <-].
    inversion Hd2; subst. congruence.
  - intros resp. apply decoded_header_kinds.
  - intros off nlen name af c ttl rdlen Hname Hfixed Hlen.
    unfold parse_record. rewrite Hname. cbn [bind negb].
    rewrite Hfixed. cbn [bind]. unfold parse_ip, inet_ntop.
    apply Nat.eqb_neq in Hlen.
    destruct af; cbn [qtype_of_family packed_length] in *.
    + change (QTYPE_A =? QTYPE_A)%N with true. cbv iota.
      now rewrite Hlen.
    + change (QTYPE_AAAA =? QTYPE_A)%N with false.
      change (QTYPE_AAAA =? QTYPE_AAAA)%N with true. cbv iota.
      now rewrite Hlen.
  - intros off nlen name t c ttl rdlen Hname Hfixed Hother.
    unfold parse_record. rewrite Hname. cbn [bind negb].
    rewrite Hfixed. cbn [bind]. unfold parse_ip.
    cbn [In] in Hother. cbn [existsb].
    destruct (N.eqb_spec t QTYPE_A); [subst t; tauto|].
    destruct (N.eqb_spec t QTYPE_AAAA); [subst t; tauto|].
    destruct (N.eqb_spec t QTYPE_CNAME); [subst t; tauto|].
    destruct (N.eqb_spec t QTYPE_NS); [subst t; tauto|].
    reflexivity.
Qed.

Lemma parse_response_aborts_witness :
  header_kinds (header_at reply_a_short) = [true] ++ false :: [] /\
  decoded 2 reply_a_short [true] 12 [(B "a", None, 1%N, 1%N, None)] 19 /\
  parse_record 2 reply_a_short 19 false = Raise ValueError /\
  parse_response 2 reply_a_short = None.
Proof.
  assert (Hk : header_kinds (header_at reply_a_short) = [true] ++ false :: [])
    by reflexivity.
  assert (Hd : decoded 2 reply_a_short [true] 12
                 [(B "a", None, 1%N, 1%N, None)] 19)
    by (apply decoded_cons with (l := 7);
        [reflexivity | apply decoded_nil]).
  assert (Hr : parse_record 2 reply_a_short 19 false = Raise ValueError)
    by reflexivity.
  split; [exact Hk | split; [exact Hd | split; [exact Hr|]]].
  exact (proj1 (proj2 (parse_response_aborts 2 reply_a_short))
           _ _ _ _ _ _ Hk Hd Hr).
Defined.

(** C3 (as stated) fails on an RDLENGTH that reaches past the end of the
    buffer: the TXT record of [truncated_txt] announces 10 bytes from
    offset 31 in a buffer of 33 bytes, and the response is returned with
    the 2 bytes that are there. *)
Lemma parse_response_truncated_rdata :
  length truncated_txt = 33 /\
  be16 (nth 29 truncated_txt x00) (nth 30 truncated_txt x00) = 10%N /\
  parse_response 2 truncated_txt =
    Some {| hostname := Some (B "a");
            questions := [(None, 1%N, 1%N)];
            answers := [(Some (Bytes [x01; x02]), 16%N, 1%N)] |}.
Proof. repeat split. Qed.

(** C5 (as amended): a response that is returned has its hostname set to
    the name of the first question record (to [None] without question),
    its questions list holds one triple [(None, type, class)] per question
    record, the address of a question being [None] and not its name, its
    answers list holds one triple [(address, type, class)] per answer
    record, and the authority and additional records are decoded to move
    the offset forward and are not in the response. *)
Theorem parse_response_contents (depth : nat) (data : bytes)
    (resp : DNSResponse) :
  parse_response depth data = Some resp ->
  exists qds ans ns ar o1 o2 o3 o4,
    decoded depth data
      (repeat true (N.to_nat (res_qdcount (header_at data)))) 12 qds o1 /\
    decoded depth data
      (repeat false (N.to_nat (res_ancount (header_at data)))) o1 ans o2 /\
    decoded depth data
      (repeat false (N.to_nat (res_nscount (header_at data)))) o2 ns o3 /\
    decoded depth data
      (repeat false (N.to_nat (res_arcount (header_at data)))) o3 ar o4 /\
    hostname resp = match qds with q :: _ => Some (name_of q) | [] => None end /\
    questions resp = map (fun q => (None, type_of q, class_of q)) qds /\
    length (questions resp) = N.to_nat (res_qdcount (header_at data)) /\
    answers resp = map (fun a => (ip_of a, type_of a, class_of a)) ans /\
    Forall (fun a => ip_of a <> None) ans /\
    length (answers resp) = N.to_nat (res_ancount (header_at data)).
Proof.
  intros H. apply parse_response_Some in H.
  destruct H as (qds & ans & ns & ar & o1 & o2 & o3 & o4
                 & _ & H1 & H2 & H3 & H4 & ->).
  exists qds, ans, ns, ar, o1, o2, o3, o4. cbn [hostname questions answers].
  pose proof (@decoded_ip _ _ true _ _ _ _ H1) as Hq.
  pose proof (@decoded_ip _ _ false _ _ _ _ H2) as Ha.
  cbv beta iota in Hq, Ha.
  repeat split; try assumption.
  - apply map_ext_Forall. eapply Forall_impl; [|exact Hq].
    intros [[[[n i] t] c] ttl]; simpl. now intros ->.
  - rewrite length_map, (decoded_length H1). apply repeat_length.
  - apply map_ext. now intros [[[[n i] t] c] ttl].
  - rewrite length_map, (decoded_length H2). apply repeat_length.
Qed.

Lemma parse_response_contents_witness :
  parse_response 2 reply_a =
    Some {| hostname := Some (B "a");
            questions := [(None, 1%N, 1%N)];
            answers := [(Some (Text AF_INET [x01; x02; x03; x04]), 1%N, 1%N)] |}
  /\ exists qds ans ns ar o1 o2 o3 o4,
       decoded 2 reply_a (repeat true 1) 12 qds o1 /\
       decoded 2 reply_a (repeat false 1) o1 ans o2 /\
       decoded 2 reply_a (repeat false 0) o2 ns o3 /\
       decoded 2 reply_a (repeat false 0) o3 ar o4 /\
       Some (B "a") = match qds with q :: _ => Some (name_of q) | [] => None end /\
       [(@None rdata, 1%N, 1%N)]
         = map (fun q => (None, type_of q, class_of q)) qds /\
       1 = 1 /\
       [(Some (Text AF_INET [x01; x02; x03; x04]), 1%N, 1%N)]
         = map (fun a => (ip_of a, type_of a, class_of a)) ans /\
       Forall (fun a => ip_of a <> None) ans /\
       1 = 1.
Proof.
  assert (H : parse_response 2 reply_a =
    Some {| hostname := Some (B "a");
            questions := [(None, 1%N, 1%N)];
            answers := [(Some (Text AF_INET [x01; x02; x03; x04]), 1%N, 1%N)] |})
    by reflexivity.
  split; [exact H|].
  exact (parse_response_contents 2 reply_a H).
Defined.

(** C5 (as stated) fails on the questions list: for a reply with the one
    question [a], type 1, class 1, the triple kept is [(None, 1, 1)],
    without the name. *)
Lemma parse_response_question_without_name :
  parse_response 1 one_question =
    Some {| hostname := Some (B "a");
            questions := [(None, 1%N, 1%N)];
            answers := [] |} /\
  [(@None rdata, 1%N, 1%N)] <> [(Some (Bytes (B "a")), 1%N, 1%N)].
Proof. split; [reflexivity | discriminate]. Qed.

(** ** [is_valid_hostname] *)

Lemma index_last_snoc (s : bytes) (c : byte) : index_last (s ++ [c]) = Ok c.
Proof. unfold index_last. now rewrite rev_app_distr. Qed.

(** What the function computes on a name that is not empty: the last
    byte, an int, is never equal to the bytes object [b'.'], so the name
    is split as it stands. *)
Lemma is_valid_hostname_eq (s : bytes) (c : byte) :
  is_valid_hostname (s ++ [c]) =
  if 255 <? length (s ++ [c]) then Ok false
  else Ok (forallb VALID_HOSTNAME_match (split dot (s ++ [c]))).
Proof.
  unfold is_valid_hostname.
  destruct (255 <? length (s ++ [c])); [reflexivity|].
  rewrite index_last_snoc. reflexivity.
Qed.

(** C6: a name that ends with a dot is rejected whatever precedes the
    dot: the test [hostname[-1] == b'.'] compares an int with a bytes
    object and never holds, the dot is not stripped, and the empty last
    label does not match the pattern. *)
Theorem is_valid_hostname_trailing_dot (s : bytes) :
  is_valid_hostname (s ++ [dot]) = Ok false.
Proof.
  rewrite is_valid_hostname_eq.
  destruct (255 <? length (s ++ [dot])); [reflexivity|].
  rewrite split_snoc_sep, forallb_app. cbn [forallb].
  change (VALID_HOSTNAME_match []) with false.
  now rewrite andb_false_r.
Qed.

(** The three names of the claim, the same name with a dot at its end,
    and a name with a newline at its end, which [$] lets through. *)
Example is_valid_hostname_examples :
  is_valid_hostname (B "example.com") = Ok true /\
  is_valid_hostname (B "-bad.com") = Ok false /\
  is_valid_hostname (repeat "a"%byte 256) = Ok false /\
  is_valid_hostname (B "example.com.") = Ok false /\
  is_valid_hostname (B "example.com" ++ [newline]) = Ok true /\
  is_valid_hostname [] = Raise IndexError.
Proof. repeat split. Qed.

(** * Further properties of the codec *)

(** ** More on [build_address] *)

Lemma build_address_cases (address : bytes) :
  let labels := split dot (strip dot address) in
  Forall (fun label => length label <= 63) labels
  /\ build_address address = Some (encode_labels labels ++ [x00])
  \/ Exists (fun label => 63 < length label) labels
     /\ build_address address = None.
Proof.
  intros labels.
  destruct (Forall_Exists_dec (fun label : bytes => length label <= 63)
              (fun label => le_dec (length label) 63) labels) as [Hall|Hex].
  - left. split; [exact Hall | now apply build_address_Some].
  - right.
    assert (Hlong : Exists (fun label => 63 < length label) labels)
      by (eapply Exists_impl; [|exact Hex]; simpl; intros; lia).
    split; [exact Hlong | now apply build_address_None].
Qed.

(** X1: the name encoder returns [None] exactly when some label of the
    stripped hostname is longer than 63 bytes; otherwise it returns the
    length-prefixed labels followed by a zero byte. *)
Theorem build_address_None_iff (address : bytes) :
  (build_address address = None
   <-> Exists (fun label => 63 < length label) (split dot (strip dot address)))
  /\ (build_address address <> None
      <-> build_address address
          = Some (encode_labels (split dot (strip dot address)) ++ [x00])).
Proof.
  destruct (build_address_cases address) as [[Hall Hsome] | [Hlong Hnone]];
    cbv zeta in *.
  - split; split; intros H; try congruence.
    exfalso. apply Exists_exists in H. destruct H as (label & Hin & H63).
    rewrite Forall_forall in Hall. specialize (Hall _ Hin). lia.
  - split; split; intros H; congruence.
Qed.

Lemma encode_labels_join_length (labels : list bytes) :
  labels <> [] ->
  Forall (fun label => length label <= 63) labels ->
  length (encode_labels labels) = length (join [dot] labels) + 1.
Proof.
  intros Hne Hall. revert Hne.
  induction Hall as [|label labels H63 Hall IH]; intros Hne;
    [now contradiction Hne|].
  rewrite encode_labels_cons.
  destruct (chr_ord (d := length label)) as (c & -> & _); [lia|].
  destruct labels as [|label' labels].
  - simpl. rewrite length_app. simpl. lia.
  - rewrite join_cons by discriminate.
    cbn [app length]. rewrite !length_app. cbn [length].
    rewrite IH by discriminate. lia.
Qed.

(** X2: the encoding of a hostname is two bytes longer than the hostname
    without its leading and trailing dots (one length byte per label in
    place of each dot, one more for the first label, and the final zero). *)
Theorem build_address_length (address encoded : bytes) :
  build_address address = Some encoded ->
  length encoded = length (strip dot address) + 2.
Proof.
  intros Henc.
  destruct (build_address_cases address) as [[Hall Hsome] | [_ Hnone]];
    cbv zeta in *; [|congruence].
  rewrite Hsome in Henc. injection Henc as <-.
  rewrite length_app, encode_labels_join_length, join_split;
    [simpl; lia | apply split_not_nil | exact Hall].
Qed.

Lemma build_address_length_witness :
  build_address (B ".www.baidu.com.")
    = Some ([x03] ++ B "www" ++ [x05] ++ B "baidu" ++ [x03] ++ B "com" ++ [x00])
  /\ length ([x03] ++ B "www" ++ [x05] ++ B "baidu" ++ [x03] ++ B "com" ++ [x00])
     = length (strip dot (B ".www.baidu.com.")) + 2.
Proof.
  assert (H : build_address (B ".www.baidu.com.")
    = Some ([x03] ++ B "www" ++ [x05] ++ B "baidu" ++ [x03] ++ B "com" ++ [x00]))
    by reflexivity.
  split; [exact H | exact (build_address_length _ H)].
Defined.

Lemma chr_inj (d1 d2 : nat) :
  d1 <= 255 -> d2 <= 255 -> chr d1 = chr d2 -> d1 = d2.
Proof.
  intros H1 H2 Heq.
  destruct (chr_ord H1) as (c1 & Hc1 & Ho1).
  destruct (chr_ord H2) as (c2 & Hc2 & Ho2).
  rewrite Hc1, Hc2 in Heq. injection Heq as ->. lia.
Qed.

Lemma firstn_length_app (l r : bytes) : firstn (length l) (l ++ r) = l.
Proof.
  rewrite firstn_app, Nat.sub_diag, firstn_all. simpl. apply app_nil_r.
Qed.

(** Length-prefixed labels with their final zero can be read back in one
    way only. *)
Lemma encode_labels_inj (labels1 : list bytes) :
  forall labels2,
    Forall (fun label => length label <= 255) labels1 ->
    Forall (fun label => length label <= 255) labels2 ->
    encode_labels labels1 ++ [x00] = encode_labels labels2 ++ [x00] ->
    labels1 = labels2.
Proof.
  induction labels1 as [|l1 labels1 IH];
    intros [|l2 labels2] H1 H2 Heq; [reflexivity | | |].
  - exfalso. inversion H2 as [|? ? Hl2 _]; subst.
    rewrite encode_labels_cons in Heq.
    destruct (chr_ord Hl2) as (c2 & Hc2 & _). rewrite Hc2 in Heq.
    apply (f_equal (@length byte)) in Heq.
    cbn [app length] in Heq. rewrite !length_app in Heq. simpl in Heq. lia.
  - exfalso. inversion H1 as [|? ? Hl1 _]; subst.
    rewrite encode_labels_cons in Heq.
    destruct (chr_ord Hl1) as (c1 & Hc1 & _). rewrite Hc1 in Heq.
    apply (f_equal (@length byte)) in Heq.
    cbn [app length] in Heq. rewrite !length_app in Heq. simpl in Heq. lia.
  - inversion H1 as [|? ? Hl1 H1']; inversion H2 as [|? ? Hl2 H2']; subst.
    rewrite !encode_labels_cons in Heq.
    destruct (chr_ord Hl1) as (c1 & Hc1 & Ho1).
    destruct (chr_ord Hl2) as (c2 & Hc2 & Ho2).
    rewrite Hc1, Hc2 in Heq. cbn [app] in Heq.
    injection Heq as Hc Heq. subst c2.
    assert (Hll : length l1 = length l2) by lia.
    rewrite <- !app_assoc in Heq.
    assert (Hl : l1 = l2).
    { apply (f_equal (firstn (length l1))) in Heq.
      rewrite firstn_length_app, Hll, firstn_length_app in Heq.
      exact Heq. }
    subst l2. apply app_inv_head in Heq.
    f_equal. now apply IH.
Qed.

(** X3: two hostnames with the same encoding are the same once their
    leading and trailing dots are stripped. *)
Theorem build_address_injective (address1 address2 encoded : bytes) :
  build_address address1 = Some encoded ->
  build_address address2 = Some encoded ->
  strip dot address1 = strip dot address2.
Proof.
  intros H1 H2.
  destruct (build_address_cases address1) as [[Hall1 Hs1] | [_ Hn1]];
    cbv zeta in *; [|congruence].
  destruct (build_address_cases address2) as [[Hall2 Hs2] | [_ Hn2]];
    cbv zeta in *; [|congruence].
  rewrite Hs1 in H1. rewrite Hs2 in H2.
  assert (Hlabels : split dot (strip dot address1)
                    = split dot (strip dot address2)).
  { apply encode_labels_inj; [| |congruence].
    - eapply Forall_impl; [|exact Hall1]. simpl. intros; lia.
    - eapply Forall_impl; [|exact Hall2]. simpl. intros; lia. }
  rewrite <- (join_split dot (strip dot address1)), Hlabels.
  apply join_split.
Qed.

Lemma build_address_injective_witness :
  build_address (B "a.bc") = Some [x01; "a"%byte; x02; "b"%byte; "c"%byte; x00]
  /\ build_address (B "..a.bc.")
     = Some [x01; "a"%byte; x02; "b"%byte; "c"%byte; x00]
  /\ strip dot (B "a.bc") = strip dot (B "..a.bc.").
Proof.
  assert (H1 : build_address (B "a.bc")
               = Some [x01; "a"%byte; x02; "b"%byte; "c"%byte; x00])
    by reflexivity.
  assert (H2 : build_address (B "..a.bc.")
               = Some [x01; "a"%byte; x02; "b"%byte; "c"%byte; x00])
    by reflexivity.
  split; [exact H1 | split; [exact H2|]].
  exact (build_address_injective _ _ H1 H2).
Defined.

(** ** More on [parse_name] *)

Lemma slice_length (data : bytes) (lo hi : nat) :
  length (slice data lo hi) = Nat.min (hi - lo) (length data - lo).
Proof. unfold slice. now rewrite length_firstn, length_skipn. Qed.

Lemma unpack_H_Ok (s : bytes) (v : N) : unpack_H s = Ok v -> length s = 2.
Proof. destruct s as [|? [|? [|? ?]]]; simpl; intros H; now inversion H. Qed.

Lemma index_Ok (data : bytes) (p : nat) (c : byte) :
  index data p = Ok c -> p < length data.
Proof.
  unfold index. destruct (nth_error data p) eqn:E; [|discriminate].
  intros _. apply nth_error_Some. congruence.
Qed.

(** Whatever the recursive call does, a loop that returns has kept its
    position inside the buffer. *)
Lemma parse_name_loop_bounds (rec : nat -> result (nat * bytes))
    (data : bytes) (offset : nat) (fuel : nat) :
  forall (p : nat) (labels : list bytes) (n : nat) (name : bytes),
    offset <= p ->
    parse_name_loop fuel rec data offset p labels = Ok (n, name) ->
    1 <= n /\ offset + n <= length data.
Proof.
  induction fuel as [|fuel IH]; intros p labels n name Hp H;
    rewrite parse_name_loop_eq in H;
    destruct (index data p) as [c|e] eqn:Hidx; cbn [bind] in H;
    try discriminate; apply index_Ok in Hidx; cbv zeta in H;
    destruct (0 <? ord c)%N;
    try (injection H as <- _; lia);
    destruct (is_pointer (ord c));
    try discriminate.
  - destruct (unpack_H (slice data p (p + 2))) as [v|e] eqn:Hu;
      cbn [bind] in H; [|discriminate].
    apply unpack_H_Ok in Hu. rewrite slice_length in Hu.
    destruct (rec _); cbn [bind] in H; [|discriminate].
    injection H as <- _. lia.
  - destruct (unpack_H (slice data p (p + 2))) as [v|e] eqn:Hu;
      cbn [bind] in H; [|discriminate].
    apply unpack_H_Ok in Hu. rewrite slice_length in Hu.
    destruct (rec _); cbn [bind] in H; [|discriminate].
    injection H as <- _. lia.
  - eapply IH; [|exact H]. lia.
Qed.

(** X4: a name that is decoded lies inside the buffer: the count of bytes
    that the decoder reports is at least 1 and, added to the offset, does
    not pass the end of the data, whatever pointers were followed. *)
Theorem parse_name_consumed_in_bounds (depth : nat) (data : bytes)
    (offset n : nat) (name : bytes) :
  parse_name depth data offset = Ok (n, name) ->
  1 <= n /\ offset + n <= length data.
Proof.
  destruct depth as [|depth]; [discriminate|].
  cbn [parse_name]. apply parse_name_loop_bounds. lia.
Qed.

Lemma parse_name_consumed_in_bounds_witness :
  parse_name 2 two_questions 31 = Ok (2, B "www.baidu.com")
  /\ 1 <= 2 /\ 31 + 2 <= length two_questions.
Proof.
  assert (H : parse_name 2 two_questions 31 = Ok (2, B "www.baidu.com"))
    by reflexivity.
  split; [exact H | exact (parse_name_consumed_in_bounds _ _ _ H)].
Defined.

(** A name in the buffer: labels and their final zero. *)
Lemma parse_name_encoded (depth : nat) (pre : bytes) (labels : list bytes)
    (post : bytes) :
  Forall plain_label labels ->
  parse_name (S depth) (pre ++ encode_labels labels ++ x00 :: post)
    (length pre)
  = Ok (length (encode_labels labels) + 1, join [dot] labels).
Proof.
  intros Hplain. cbn [parse_name].
  pose proof (encode_labels_length Hplain) as Hlen.
  rewrite (parse_name_loop_labels _ _ _ Hplain)
    by (rewrite !length_app; lia).
  cbn [app]. rewrite <- length_app, parse_name_loop_eq.
  rewrite app_assoc at 1. rewrite index_app.
  cbn. f_equal. f_equal. rewrite length_app. lia.
Qed.

(** X5: a name whose last label is not followed by a length byte inside
    the buffer, because the label runs to the end of the data or past it,
    is not cut short: the decoder raises [IndexError]. *)
Theorem parse_name_truncated_label (depth : nat) (pre : bytes)
    (labels : list bytes) (c : byte) (rest : bytes) :
  Forall plain_label labels ->
  (0 < ord c)%N ->
  is_pointer (ord c) = false ->
  length rest <= N.to_nat (ord c) ->
  parse_name (S depth) (pre ++ encode_labels labels ++ c :: rest)
    (length pre)
  = Raise IndexError.
Proof.
  intros Hplain Hpos Hptr Hrest. cbn [parse_name].
  pose proof (encode_labels_length Hplain) as Hlen.
  rewrite (parse_name_loop_labels _ _ _ Hplain)
    by (rewrite !length_app; lia).
  cbn [app]. rewrite <- length_app, parse_name_loop_eq.
  rewrite app_assoc at 1. rewrite index_app. cbn [bind]. cbv zeta.
  rewrite (proj2 (N.ltb_lt _ _) Hpos), Hptr.
  destruct (_ - _) as [|fuel]; [reflexivity|].
  rewrite parse_name_loop_eq, index_past; [reflexivity|].
  rewrite !length_app. cbn [length]. lia.
Qed.

Lemma parse_name_truncated_label_witness :
  Forall plain_label [B "www"] /\
  (0 < ord x05)%N /\
  is_pointer (ord x05) = false /\
  length (B "baidu") <= N.to_nat (ord x05) /\
  parse_name 1 ([x12; x34] ++ encode_labels [B "www"] ++ x05 :: B "baidu") 2
  = Raise IndexError.
Proof.
  assert (H1 : Forall plain_label [B "www"])
    by (apply Forall_cons; [split; [simpl; lia | reflexivity] | apply Forall_nil]).
  assert (H2 : (0 < ord x05)%N) by reflexivity.
  assert (H3 : is_pointer (ord x05) = false) by reflexivity.
  assert (H4 : length (B "baidu") <= N.to_nat (ord x05)) by (simpl; lia).
  split; [exact H1 | split; [exact H2 | split; [exact H3 | split; [exact H4|]]]].
  exact (parse_name_truncated_label 0 [x12; x34] x05 (B "baidu") H1 H2 H3 H4).
Defined.

(** ** More on records and responses *)

Lemma unpack_HH_Ok (s : bytes) (v : N * N) : unpack_HH s = Ok v -> length s = 4.
Proof.
  destruct s as [|? [|? [|? [|? [|? ?]]]]]; simpl; intros H; now inversion H.
Qed.

Lemma unpack_HHiH_Ok (s : bytes) (v : N * N * Z * N) :
  unpack_HHiH s = Ok v -> length s = 10.
Proof.
  do 11 (destruct s as [|? s]; simpl; try (intros H; now inversion H)).
Qed.

(** The fixed part of a record (a name of one byte at least, then 4 bytes
    for a question and 10 for any other record) lies inside the buffer. *)
Lemma parse_record_bounds (depth : nat) (data : bytes) (off : nat) (q : bool)
    (l : nat) (r : record) :
  parse_record depth data off q = Ok (l, r) ->
  (if q then 5 else 11) <= l /\ off + (if q then 5 else 11) <= length data.
Proof.
  unfold parse_record. intros H.
  apply bind_Ok in H. destruct H as ([nlen name] & Hname & H).
  assert (Hn : 1 <= nlen /\ off + nlen <= length data).
  { destruct depth as [|depth]; [discriminate|].
    cbn [parse_name] in Hname.
    eapply parse_name_loop_bounds; [|exact Hname]. lia. }
  destruct q; cbn [negb] in H.
  - apply bind_Ok in H. destruct H as ([t c] & Hu & H).
    apply unpack_HH_Ok in Hu. rewrite slice_length in Hu.
    injection H as <- _. lia.
  - apply bind_Ok in H. destruct H as ([[[t c] ttl] rdlen] & Hu & H).
    apply unpack_HHiH_Ok in Hu. rewrite slice_length in Hu.
    apply bind_Ok in H. destruct H as (ip & _ & H).
    injection H as <- _. lia.
Qed.

Lemma decoded_bound (depth : nat) (data : bytes) (kinds : list bool)
    (off : nat) (rs : list record) (off' : nat) :
  decoded depth data kinds off rs off' ->
  kinds <> [] ->
  off + list_sum (map (fun q : bool => if q then 5 else 11) kinds)
  <= length data.
Proof.
  induction 1 as [off | q kinds off l r rs off' Hr Hd IH]; intros Hne;
    [congruence|].
  apply parse_record_bounds in Hr. destruct Hr as [Hl Hoff].
  destruct kinds as [|q' kinds]; [simpl; lia|].
  specialize (IH ltac:(discriminate)). simpl in IH |- *. lia.
Qed.

Lemma list_sum_repeat_cost (q : bool) (n : nat) :
  list_sum (map (fun q : bool => if q then 5 else 11) (repeat q n))
  = n * (if q then 5 else 11).
Proof. induction n as [|n IH]; simpl; [reflexivity|]. rewrite IH. lia. Qed.

(** X6: a response is returned only if the buffer has room for what its
    header announces: 12 bytes of header, 5 bytes at least for each
    question and 11 bytes at least for each answer, authority and
    additional record. *)
Theorem parse_response_counts_fit (depth : nat) (data : bytes)
    (resp : DNSResponse) :
  parse_response depth data = Some resp ->
  12 + 5 * N.to_nat (res_qdcount (header_at data))
  + 11 * (N.to_nat (res_ancount (header_at data))
          + N.to_nat (res_nscount (header_at data))
          + N.to_nat (res_arcount (header_at data)))
  <= length data.
Proof.
  intros Hresp.
  destruct (decoded_header_kinds _ _ Hresp) as (rs & off & Hd).
  apply parse_response_Some in Hresp.
  destruct Hresp as (_ & _ & _ & _ & _ & _ & _ & _ & Hlen & _).
  assert (Hcost : list_sum (map (fun q : bool => if q then 5 else 11)
                              (header_kinds (header_at data)))
                  = 5 * N.to_nat (res_qdcount (header_at data))
                    + 11 * (N.to_nat (res_ancount (header_at data))
                            + N.to_nat (res_nscount (header_at data))
                            + N.to_nat (res_arcount (header_at data)))).
  { unfold header_kinds.
    rewrite !map_app, !list_sum_app, !list_sum_repeat_cost. lia. }
  destruct (header_kinds (header_at data)) as [|q kinds] eqn:Hk.
  - cbn [map list_sum fold_right] in Hcost. lia.
  - apply decoded_bound in Hd; [|discriminate]. lia.
Qed.

Lemma parse_response_counts_fit_witness :
  parse_response 2 reply_a
  = Some {| hostname := Some (B "a");
            questions := [(None, 1%N, 1%N)];
            answers := [(Some (Text AF_INET [x01; x02; x03; x04]), 1%N, 1%N)] |}
  /\ 12 + 5 * 1 + 11 * (1 + 0 + 0) <= length reply_a.
Proof.
  assert (H : parse_response 2 reply_a
    = Some {| hostname := Some (B "a");
              questions := [(None, 1%N, 1%N)];
              answers := [(Some (Text AF_INET [x01; x02; x03; x04]), 1%N, 1%N)] |})
    by reflexivity.
  split; [exact H | exact (parse_response_counts_fit 2 reply_a H)].
Defined.

Lemma be16_bound (hi lo : byte) : (be16 hi lo < 65536)%N.
Proof.
  unfold be16, ord.
  pose proof (Byte.to_N_bounded hi). pose proof (Byte.to_N_bounded lo). lia.
Qed.

Lemma flag_values (c : byte) :
  (N.land (ord c) 128 = 0 \/ N.land (ord c) 128 = 128)%N /\
  (N.land (ord c) 2 = 0 \/ N.land (ord c) 2 = 2)%N /\
  (N.land (ord c) 15 < 16)%N.
Proof.
  destruct c; (split; [|split]);
    first [reflexivity | left; reflexivity | right; reflexivity].
Qed.

(** X7: the fields of a parsed header are in their ranges: the
    transaction id and the four counts are 16-bit values, RCODE is below
    16, QR and RA are 0 or 128 and TC is 0 or 2. *)
Theorem parse_header_ranges (data : bytes) (h : header) :
  parse_header data = Ok (Some h) ->
  (res_id h < 65536)%N /\
  (res_qr h = 0 \/ res_qr h = 128)%N /\
  (res_tc h = 0 \/ res_tc h = 2)%N /\
  (res_ra h = 0 \/ res_ra h = 128)%N /\
  (res_rcode h < 16)%N /\
  (res_qdcount h < 65536)%N /\ (res_ancount h < 65536)%N /\
  (res_nscount h < 65536)%N /\ (res_arcount h < 65536)%N.
Proof.
  rewrite parse_header_eq.
  destruct (12 <=? length data); [|discriminate].
  intros H. injection H as <-. unfold header_at.
  cbn [res_id res_qr res_tc res_ra res_rcode
       res_qdcount res_ancount res_nscount res_arcount].
  pose proof (flag_values (nth 2 data x00)) as (Hqr & Htc & _).
  pose proof (flag_values (nth 3 data x00)) as (Hra & _ & Hrc).
  repeat split; try apply be16_bound; assumption.
Qed.

Lemma parse_header_ranges_witness :
  parse_header reply_header = Ok (Some (header_at reply_header)) /\
  (res_id (header_at reply_header) < 65536)%N /\
  (res_qr (header_at reply_header) = 0
   \/ res_qr (header_at reply_header) = 128)%N.
Proof.
  assert (H : parse_header reply_header = Ok (Some (header_at reply_header)))
    by reflexivity.
  split; [exact H|].
  destruct (parse_header_ranges _ H) as (Hid & Hqr & _).
  split; [exact Hid | exact Hqr].
Defined.

Lemma firstn_min (A : Type) (n m : nat) (l : list A) :
  Nat.min n (length l) = m -> firstn n l = firstn m l.
Proof.
  intros <-. destruct (Nat.le_ge_cases n (length l)) as [H|H].
  - now rewrite Nat.min_l.
  - rewrite Nat.min_r by exact H. now rewrite firstn_all, firstn_all2.
Qed.

(** X8: the RDATA of an A (AAAA) record is accepted exactly when the
    bytes that RDLENGTH announces, cut at the end of the buffer, are 4
    (16) bytes; the address is then made of those bytes, and in every
    other case [ValueError] is raised. *)
Theorem parse_ip_address (depth : nat) (af : family) (data : bytes)
    (len off : nat) :
  parse_ip depth (qtype_of_family af) data len off =
  if Nat.min len (length data - off) =? packed_length af
  then Ok (Text af (slice data off (off + packed_length af)))
  else Raise ValueError.
Proof.
  assert (Hparse : parse_ip depth (qtype_of_family af) data len off
                   = inet_ntop af (slice data off (off + len)))
    by (destruct af; reflexivity).
  rewrite Hparse. unfold inet_ntop.
  rewrite slice_length.
  replace (off + len - off) with len by lia.
  destruct (Nat.eqb_spec (Nat.min len (length data - off)) (packed_length af))
    as [Hmin|_]; [|reflexivity].
  f_equal. f_equal. unfold slice.
  replace (off + len - off) with len by lia.
  replace (off + packed_length af - off) with (packed_length af) by lia.
  apply firstn_min. now rewrite length_skipn.
Qed.

(** X9: a query built for a hostname with labels of 1 to 63 bytes parses
    back, as a response would: the hostname without its outer dots, one
    question with the query type and the class IN, no answer. *)
Theorem build_request_parse_response (depth : nat) (urandom : byte * byte)
    (address : bytes) (qtype : N) :
  Forall wire_label (split dot (strip dot address)) ->
  (qtype < 65536)%N ->
  exists msg,
    build_request urandom address qtype = Ok msg /\
    parse_response (S depth) msg
    = Some {| hostname := Some (strip dot address);
              questions := [(None, qtype, QCLASS_IN)];
              answers := [] |}.
Proof.
  intros Hwire Hq.
  set (labels := split dot (strip dot address)) in *.
  pose proof (wire_label_plain Hwire) as Hplain.
  assert (Hname : build_address address = Some (encode_labels labels ++ [x00])).
  { apply build_address_Some. fold labels.
    eapply Forall_impl; [|exact Hwire]. intros l [_ H]. exact H. }
  set (t1 := byte_of_N (qtype / 256)). set (t0 := byte_of_N (qtype mod 256)).
  set (pre := [fst urandom; snd urandom; x01; x00; x00; x01;
               x00; x00; x00; x00; x00; x00]).
  set (msg := pre ++ encode_labels labels ++ x00 :: [t1; t0; x00; x01]).
  exists msg. split.
  - rewrite build_request_eq, (proj2 (N.ltb_lt _ _) Hq), Hname.
    unfold msg, pre. cbn [app]. rewrite <- app_assoc. reflexivity.
  - set (nlen := length (encode_labels labels) + 1).
    assert (Hpn : parse_name (S depth) msg 12 = Ok (nlen, join [dot] labels))
      by (apply (parse_name_encoded depth pre _ Hplain)).
    assert (Hsl : slice msg (12 + nlen) (12 + nlen + 4) = [t1; t0; x00; x01]).
    { replace msg with ((pre ++ encode_labels labels ++ [x00])
                        ++ [t1; t0; x00; x01] ++ [])
        by (unfold msg; rewrite <- !app_assoc; reflexivity).
      replace (12 + nlen) with (length (pre ++ encode_labels labels ++ [x00]))
        by (rewrite !length_app; unfold nlen; simpl; lia).
      apply (slice_app _ [t1; t0; x00; x01] []). }
    assert (Hrec : parse_record (S depth) msg 12 true
                   = Ok (nlen + 4,
                         (join [dot] labels, None, qtype, QCLASS_IN, None))).
    { unfold parse_record. rewrite Hpn. cbn [bind negb]. rewrite Hsl.
      cbn [unpack_HH bind]. unfold t1, t0. rewrite (be16_pack Hq).
      reflexivity. }
    apply parse_response_Some.
    exists [(join [dot] labels, None, qtype, QCLASS_IN, None)], [], [], [],
      (12 + (nlen + 4)), (12 + (nlen + 4)), (12 + (nlen + 4)), (12 + (nlen + 4)).
    assert (Hh : header_at msg
                 = Header (be16 (fst urandom) (snd urandom)) 0 0 0 0 1 0 0 0)
      by reflexivity.
    rewrite Hh. cbn [res_qdcount res_ancount res_nscount res_arcount].
    repeat split; try apply decoded_nil.
    + unfold msg. rewrite length_app. simpl. lia.
    + apply decoded_cons with (l := nlen + 4); [exact Hrec | apply decoded_nil].
    + cbn [name_of map triple]. unfold labels. now rewrite join_split.
Qed.

Lemma build_request_parse_response_witness :
  Forall wire_label (split dot (strip dot (B "a.bc"))) /\
  (QTYPE_A < 65536)%N /\
  exists msg,
    build_request (x12, x34) (B "a.bc") QTYPE_A = Ok msg /\
    parse_response 1 msg
    = Some {| hostname := Some (strip dot (B "a.bc"));
              questions := [(None, QTYPE_A, QCLASS_IN)];
              answers := [] |}.
Proof.
  assert (H : Forall wire_label (split dot (strip dot (B "a.bc"))))
    by (change (split dot (strip dot (B "a.bc"))) with [B "a"; B "bc"];
        solve_labels).
  assert (Hq : (QTYPE_A < 65536)%N) by reflexivity.
  split; [exact H | split; [exact Hq|]].
  exact (build_request_parse_response 0 (x12, x34) (B "a.bc") H Hq).
Defined.

(** ** The recursion limit and the result *)

(** A name that is decoded with room for [depth] nested calls is decoded
    the same with more room. *)
Lemma parse_name_depth_mono (depth depth' : nat) (data : bytes) (offset : nat)
    (r : nat * bytes) :
  parse_name depth data offset = Ok r ->
  depth <= depth' ->
  parse_name depth' data offset = Ok r.
Proof.
  intros Hok Hle.
  destruct (chain data offset depth) as [o|] eqn:Hc.
  - rewrite parse_name_too_deep in Hok by congruence. discriminate.
  - destruct (@chain_end data depth offset Hc) as (k & o & Hk & Hko & Hn).
    destruct (@parse_name_enough_depth data k offset o depth Hko Hn Hk)
      as [Heq _].
    destruct (@parse_name_enough_depth data k offset o depth' Hko Hn
                ltac:(lia)) as [Heq' _].
    congruence.
Qed.

Lemma parse_record_depth_mono (depth depth' : nat) (data : bytes)
    (offset : nat) (q : bool) (v : nat * record) :
  parse_record depth data offset q = Ok v ->
  depth <= depth' ->
  parse_record depth' data offset q = Ok v.
Proof.
  unfold parse_record. intros H Hle.
  apply bind_Ok in H. destruct H as ([nlen name] & Hname & H).
  rewrite (parse_name_depth_mono _ _ Hname Hle). cbn [bind].
  destruct q; cbn [negb] in *; [exact H|].
  destruct (unpack_HHiH _) as [[[[t c] ttl] rdlen]|e]; cbn [bind] in *;
    [|discriminate].
  apply bind_Ok in H. destruct H as (ip & Hip & H).
  assert (Hip' : parse_ip depth' t data (N.to_nat rdlen) (offset + nlen + 10)
                 = Ok ip).
  { unfold parse_ip in *.
    destruct (t =? QTYPE_A)%N; [exact Hip|].
    destruct (t =? QTYPE_AAAA)%N; [exact Hip|].
    destruct (existsb _ _); [|exact Hip].
    apply bind_Ok in Hip. destruct Hip as (r & Hr & Hip).
    now rewrite (parse_name_depth_mono _ _ Hr Hle). }
  rewrite Hip'. exact H.
Qed.

Lemma decoded_depth_mono (depth depth' : nat) (data : bytes)
    (kinds : list bool) (off : nat) (rs : list record) (off' : nat) :
  decoded depth data kinds off rs off' ->
  depth <= depth' ->
  decoded depth' data kinds off rs off'.
Proof.
  induction 1 as [off | q kinds off l r rs off' Hr _ IH]; intros Hle;
    econstructor; eauto using parse_record_depth_mono.
Qed.

(** X10: a response that is returned under some recursion limit is
    returned unchanged under any larger one: the limit decides whether a
    buffer can be parsed, never what it is parsed to. *)
Theorem parse_response_depth_stable (depth depth' : nat) (data : bytes)
    (resp : DNSResponse) :
  parse_response depth data = Some resp ->
  depth <= depth' ->
  parse_response depth' data = Some resp.
Proof.
  intros H Hle. apply parse_response_Some in H. apply parse_response_Some.
  destruct H as (qds & ans & ns & ar & o1 & o2 & o3 & o4
                 & Hlen & H1 & H2 & H3 & H4 & Hr).
  exists qds, ans, ns, ar, o1, o2, o3, o4.
  repeat split; eauto using decoded_depth_mono.
Qed.

Lemma parse_response_depth_stable_witness :
  parse_response 2 reply_a
  = Some {| hostname := Some (B "a");
            questions := [(None, 1%N, 1%N)];
            answers := [(Some (Text AF_INET [x01; x02; x03; x04]), 1%N, 1%N)] |}
  /\ 2 <= 1000
  /\ parse_response 1000 reply_a
     = Some {| hostname := Some (B "a");
               questions := [(None, 1%N, 1%N)];
               answers := [(Some (Text AF_INET [x01; x02; x03; x04]), 1%N, 1%N)] |}.
Proof.
  assert (H : parse_response 2 reply_a
    = Some {| hostname := Some (B "a");
              questions := [(None, 1%N, 1%N)];
              answers := [(Some (Text AF_INET [x01; x02; x03; x04]), 1%N, 1%N)] |})
    by reflexivity.
  assert (Hle : 2 <= 1000) by lia.
  split; [exact H | split; [exact Hle|]].
  exact (@parse_response_depth_stable 2 1000 reply_a _ H Hle).
Defined.

(** ** The pattern [VALID_HOSTNAME] *)

Lemma class_run_le (max : nat) :
  forall s, class_run max s <= max /\ class_run max s <= length s.
Proof.
  induction max as [|max IH]; intros [|c s]; simpl; try lia.
  destruct (in_class c); [|lia]. specialize (IH s). lia.
Qed.

Lemma class_run_firstn (max : nat) :
  forall s k,
    k <= class_run max s -> Forall (fun c => in_class c = true) (firstn k s).
Proof.
  induction max as [|max IH]; intros [|c s] [|k] Hk; simpl in *;
    try apply Forall_nil; try lia.
  destruct (in_class c) eqn:Hc; [|lia].
  apply Forall_cons; [exact Hc | apply IH; lia].
Qed.

Lemma class_run_ge (max : nat) :
  forall s k,
    k <= max -> k <= length s ->
    Forall (fun c => in_class c = true) (firstn k s) ->
    k <= class_run max s.
Proof.
  induction max as [|max IH]; intros [|c s] [|k] Hmax Hlen Hall; simpl in *;
    try lia.
  inversion Hall as [|? ? Hc Hall']; subst. rewrite Hc.
  specialize (IH s k ltac:(lia) ltac:(lia) Hall'). lia.
Qed.

Lemma backtrack_iff (s : bytes) (m : nat) :
  backtrack s m = true <->
  exists k, 1 <= k <= m /\ not_after_hyphen s k = true /\ at_dollar s k = true.
Proof.
  induction m as [|m IH]; simpl.
  - split; [discriminate | intros (k & Hk & _); lia].
  - rewrite orb_true_iff, andb_true_iff, IH. split.
    + intros [[Hh Hd] | (k & Hk & Hh & Hd)].
      * exists (S m). repeat split; (lia || assumption).
      * exists k. repeat split; (lia || assumption).
    + intros (k & Hk & Hh & Hd).
      destruct (Nat.eq_dec k (S m)) as [->|Hne]; [left; split; assumption|].
      right. exists k. repeat split; (lia || assumption).
Qed.

Lemma at_dollar_iff (s : bytes) (k : nat) :
  at_dollar s k = true <->
  s = firstn k s /\ k = length s
  \/ s = firstn k s ++ [newline] /\ S k = length s.
Proof.
  unfold at_dollar. rewrite orb_true_iff, andb_true_iff, !Nat.eqb_eq. split.
  - intros [-> | [Hk Hnl]]; [left; now rewrite firstn_all|].
    right. split; [|exact Hk].
    destruct (nth_error s k) as [c|] eqn:Hc; [|discriminate].
    apply Byte.byte_dec_bl in Hnl. subst c.
    rewrite <- (firstn_skipn k s) at 1. f_equal.
    pose proof (length_skipn k s) as Hlen.
    rewrite <- (firstn_skipn k s), nth_error_app2 in Hc
      by (rewrite length_firstn; lia).
    rewrite length_firstn in Hc.
    replace (k - Nat.min k (length s)) with 0 in Hc by lia.
    destruct (skipn k s) as [|c [|c' rest]]; simpl in *; try lia; congruence.
  - intros [[_ ->] | [Hs Hk]]; [now left|]. right. split; [exact Hk|].
    rewrite Hs, nth_error_app2 by (rewrite length_firstn; lia).
    rewrite length_firstn.
    replace (k - Nat.min k (length s)) with 0 by lia.
    simpl. reflexivity.
Qed.

Lemma not_after_hyphen_iff (s : bytes) (k : nat) :
  1 <= k <= length s ->
  (not_after_hyphen s k = true <-> forall t, firstn k s <> t ++ [hyphen]).
Proof.
  intros Hk. unfold not_after_hyphen.
  assert (Hlen : length (firstn k s) = k) by (rewrite length_firstn; lia).
  destruct (exists_last (l := firstn k s)) as (t & c & Ht);
    [intros E; rewrite E in Hlen; simpl in Hlen; lia|].
  assert (Hnth : nth_error s (k - 1) = Some c).
  { assert (Hf : nth_error (firstn k s) (k - 1) = nth_error s (k - 1))
      by (rewrite nth_error_firstn;
          destruct (Nat.ltb_spec (k - 1) k); [reflexivity | lia]).
    rewrite <- Hf.
    rewrite Ht in Hlen |- *. rewrite length_app in Hlen. simpl in Hlen.
    rewrite nth_error_app2 by lia.
    replace (k - 1 - length t) with 0 by lia. reflexivity. }
  rewrite Hnth, Ht, negb_true_iff. split.
  - intros Hc t' Heq. apply app_inj_tail in Heq. destruct Heq as [_ ->].
    now rewrite (Byte.byte_dec_lb (eq_refl hyphen)) in Hc.
  - intros Hno. destruct (Byte.eqb c hyphen) eqn:E; [|reflexivity].
    apply Byte.byte_dec_bl in E. subst c. now contradiction (Hno t).
Qed.

(** The pattern, read as a set of byte strings. *)
Lemma VALID_HOSTNAME_match_accepted (x : bytes) :
  VALID_HOSTNAME_match x = true <-> accepted_label x.
Proof.
  unfold VALID_HOSTNAME_match. rewrite andb_true_iff, backtrack_iff.
  pose proof (class_run_le 63 x) as [H63 Hlen].
  split.
  - intros [Hhd (k & Hk & Hh & Hd)].
    exists (firstn k x).
    assert (Hbody : label_syntax (firstn k x)).
    { repeat split.
      - rewrite length_firstn. lia.
      - rewrite length_firstn. lia.
      - apply (class_run_firstn 63). lia.
      - intros s Heq. destruct x as [|c x]; [simpl in Hk; lia|].
        destruct k as [|k]; [lia|]. simpl in Heq. injection Heq as -> _.
        now rewrite (Byte.byte_dec_lb (eq_refl hyphen)) in Hhd.
      - apply not_after_hyphen_iff; [lia | exact Hh]. }
    split; [exact Hbody|].
    apply at_dollar_iff in Hd. destruct Hd as [[Hs _] | [Hs _]]; auto.
  - intros (body & (Hlb & Hclass & Hstart & Hend) & Hx).
    assert (Hpre : firstn (length body) x = body)
      by (destruct Hx as [-> | ->];
          [apply firstn_all | apply firstn_length_app]).
    assert (Hxl : length body <= length x)
      by (destruct Hx as [-> | ->]; [|rewrite length_app]; lia).
    split.
    + destruct x as [|c x]; [reflexivity|].
      destruct (Byte.eqb c hyphen) eqn:E; [|reflexivity].
      apply Byte.byte_dec_bl in E. subst c. exfalso.
      destruct body as [|c body]; [simpl in Hlb; lia|].
      simpl in Hpre. injection Hpre as Hc _. subst c.
      now apply (Hstart body).
    + exists (length body). repeat split; try lia.
      * apply class_run_ge; [lia | lia | now rewrite Hpre].
      * apply not_after_hyphen_iff; [lia | now rewrite Hpre].
      * apply at_dollar_iff. rewrite Hpre.
        destruct Hx as [-> | ->]; [left | right]; split; try reflexivity.
        rewrite length_app. simpl. lia.
Qed.

(** ** More on [is_valid_hostname] *)

(** X11: [is_valid_hostname] returns [True] exactly for the names that
    are not empty, are at most 255 bytes long and, split at the dots as
    they stand, have only labels of 1 to 63 bytes of [[A-Za-z0-9-]] that
    neither start nor end with a hyphen, each possibly followed by one
    newline byte; on the empty name it raises [IndexError], and it raises
    nothing else. *)
Theorem is_valid_hostname_accepts (hostname : bytes) :
  (is_valid_hostname hostname = Ok true
   <-> hostname <> [] /\ length hostname <= 255
       /\ Forall accepted_label (split dot hostname))
  /\ (forall e, is_valid_hostname hostname = Raise e
                <-> hostname = [] /\ e = IndexError).
Proof.
  destruct hostname as [|c0 rest] using rev_ind.
  - split; [split; [discriminate | intros [H _]; congruence]|].
    intros e. split; [intros H | intros [_ ->]; reflexivity].
    split; [reflexivity | now inversion H].
  - clear IHrest. rewrite is_valid_hostname_eq.
    assert (Hne : rest ++ [c0] <> []) by (destruct rest; discriminate).
    destruct (Nat.ltb_spec 255 (length (rest ++ [c0]))) as [Hlong|Hshort].
    + split; [split; [discriminate | intros (_ & H & _); lia]|].
      intros e. split; [discriminate | intros [H _]; congruence].
    + split.
      * rewrite Forall_forall.
        split.
        -- intros H. injection H as H. rewrite forallb_forall in H.
           repeat split; [exact Hne | lia |].
           intros x Hx. apply VALID_HOSTNAME_match_accepted. now apply H.
        -- intros (_ & _ & H). f_equal. apply forallb_forall.
           intros x Hx. apply VALID_HOSTNAME_match_accepted. now apply H.
      * intros e. split; [discriminate | intros [H _]; congruence].
Qed.

Lemma split_In (c : byte) (s : bytes) :
  forall label x, In label (split c s) -> In x label -> In x s.
Proof.
  induction s as [|y s IH]; intros label x Hl Hx; simpl in Hl.
  - destruct Hl as [<- | []]. exact Hx.
  - destruct (Byte.eqb y c).
    + destruct Hl as [<- | Hl]; [contradiction | right; eauto].
    + destruct (split c s) as [|l ls] eqn:Hs; simpl in Hl.
      * destruct Hl as [<- | []]. destruct Hx as [<- | []]. now left.
      * destruct Hl as [<- | Hl].
        -- destruct Hx as [<- | Hx]; [now left | right].
           apply (IH l); [now left | exact Hx].
        -- right. apply (IH label); [now right | exact Hx].
Qed.

Lemma split_no_sep (c : byte) (s : bytes) : ~ In c s -> split c s = [s].
Proof.
  induction s as [|y s IH]; intros Hno; simpl; [reflexivity|].
  destruct (Byte.eqb y c) eqn:E.
  - apply Byte.byte_dec_bl in E. subst y. exfalso. apply Hno. now left.
  - rewrite IH; [reflexivity|]. intros H. apply Hno. now right.
Qed.

(** A name without an empty label has no dot to strip. *)
Lemma strip_labels_nonempty (c : byte) (s : bytes) :
  Forall (fun label => label <> []) (split c s) -> strip c s = s.
Proof.
  intros Hall. unfold strip.
  assert (Hl : lstrip c s = s).
  { destruct s as [|y s]; [reflexivity|]. simpl in *.
    destruct (Byte.eqb y c); [|reflexivity].
    inversion Hall; congruence. }
  rewrite Hl. unfold rstrip.
  destruct s as [|y0 s0] using rev_ind; [reflexivity|].
  rewrite rev_app_distr. simpl.
  destruct (Byte.eqb y0 c) eqn:E.
  - apply Byte.byte_dec_bl in E. subst y0.
    rewrite split_snoc_sep in Hall. apply Forall_app in Hall.
    destruct Hall as [_ Hlast]. inversion Hlast; congruence.
  - simpl. now rewrite rev_involutive.
Qed.

Lemma accepted_label_nonempty (x : bytes) : accepted_label x -> x <> [].
Proof.
  intros (body & ([H1 _] & _) & [-> | ->]) E.
  - rewrite E in H1. simpl in H1. lia.
  - destruct body; discriminate.
Qed.

(** X12: a name that [is_valid_hostname] accepts and that holds no
    newline byte is encoded by [build_address], and the encoding decodes
    to the very name, all its bytes consumed: validation, encoding and
    decoding agree on such names. *)
Theorem is_valid_hostname_roundtrip (depth : nat) (hostname : bytes) :
  is_valid_hostname hostname = Ok true ->
  ~ In newline hostname ->
  exists encoded,
    build_address hostname = Some encoded /\
    parse_name (S depth) encoded 0 = Ok (length encoded, hostname).
Proof.
  intros Hvalid Hnl.
  assert (Hacc : Forall accepted_label (split dot hostname)).
  { destruct hostname as [|c0 rest] using rev_ind; [discriminate|].
    rewrite is_valid_hostname_eq in Hvalid.
    destruct (255 <? _); [discriminate|]. injection Hvalid as Hvalid.
    rewrite forallb_forall in Hvalid. apply Forall_forall.
    intros x Hx. apply VALID_HOSTNAME_match_accepted. now apply Hvalid. }
  assert (Hstrip : strip dot hostname = hostname).
  { apply strip_labels_nonempty.
    eapply Forall_impl; [|exact Hacc]. apply accepted_label_nonempty. }
  assert (Hwire : Forall wire_label (split dot hostname)).
  { rewrite Forall_forall in Hacc |- *. intros x Hx.
    destruct (Hacc x Hx) as (body & (Hlen & _) & [-> | ->]); [exact Hlen|].
    exfalso. apply Hnl. apply (@split_In dot hostname _ newline Hx).
    apply in_or_app. right. now left. }
  exists (encode_labels (split dot hostname) ++ [x00]). split.
  - rewrite <- Hstrip at 2. apply build_address_Some. rewrite Hstrip.
    eapply Forall_impl; [|exact Hwire]. intros l [_ H]. exact H.
  - pose proof (@parse_name_encoded depth [] (split dot hostname) []
                  (wire_label_plain Hwire)) as Hp.
    cbn [app length] in Hp. rewrite Hp, join_split, length_app.
    reflexivity.
Qed.

Lemma is_valid_hostname_roundtrip_witness :
  is_valid_hostname (B "www.baidu.com") = Ok true /\
  ~ In newline (B "www.baidu.com") /\
  exists encoded,
    build_address (B "www.baidu.com") = Some encoded /\
    parse_name 1 encoded 0 = Ok (length encoded, B "www.baidu.com").
Proof.
  assert (Hv : is_valid_hostname (B "www.baidu.com") = Ok true) by reflexivity.
  assert (Hn : ~ In newline (B "www.baidu.com"))
    by (simpl; intros H; repeat (destruct H as [H | H]; [discriminate|]);
        exact H).
  split; [exact Hv | split; [exact Hn|]].
  exact (@is_valid_hostname_roundtrip 0 (B "www.baidu.com") Hv Hn).
Defined.

(** X13: validation does not guard the encoder: a label of 63 bytes in
    the label syntax followed by a newline byte is a name that
    [is_valid_hostname] accepts, that [build_address] refuses with
    [None], and for which [build_request] raises [TypeError]. *)
Theorem is_valid_hostname_not_encodable (urandom : byte * byte) (body : bytes) :
  label_syntax body ->
  length body = 63 ->
  is_valid_hostname (body ++ [newline]) = Ok true /\
  build_address (body ++ [newline]) = None /\
  build_request urandom (body ++ [newline]) QTYPE_A = Raise TypeError.
Proof.
  intros Hbody H63.
  assert (Hnodot : ~ In dot (body ++ [newline])).
  { intros Hin. apply in_app_or in Hin. destruct Hin as [Hin | [E | []]];
      [|discriminate].
    destruct Hbody as (_ & Hclass & _). rewrite Forall_forall in Hclass.
    specialize (Hclass _ Hin). discriminate. }
  assert (Hsplit : split dot (body ++ [newline]) = [body ++ [newline]])
    by (now apply split_no_sep).
  assert (Hacc : accepted_label (body ++ [newline]))
    by (exists body; split; [exact Hbody | now right]).
  assert (Hstrip : strip dot (body ++ [newline]) = body ++ [newline]).
  { apply strip_labels_nonempty. rewrite Hsplit.
    apply Forall_cons; [|apply Forall_nil]. destruct body; discriminate. }
  assert (Hnone : build_address (body ++ [newline]) = None).
  { apply build_address_None. rewrite Hstrip, Hsplit.
    apply Exists_cons_hd. rewrite length_app. simpl. lia. }
  split; [|split; [exact Hnone|]].
  - rewrite is_valid_hostname_eq.
    destruct (Nat.ltb_spec 255 (length (body ++ [newline]))) as [Hlong|_];
      [rewrite length_app in Hlong; simpl in Hlong; lia|].
    rewrite Hsplit. cbn [forallb].
    now rewrite (proj2 (VALID_HOSTNAME_match_accepted _) Hacc).
  - now rewrite build_request_eq, Hnone.
Qed.

Lemma label_syntax_repeat_a : label_syntax (repeat "a"%byte 63).
Proof.
  repeat split.
  - rewrite repeat_length. lia.
  - rewrite repeat_length. lia.
  - apply Forall_forall. intros c Hc. apply repeat_spec in Hc. now subst c.
  - discriminate.
  - intros s Heq.
    assert (Hin : In hyphen (repeat "a"%byte 63))
      by (rewrite Heq; apply in_or_app; right; now left).
    apply repeat_spec in Hin. discriminate.
Qed.

Lemma is_valid_hostname_not_encodable_witness :
  is_valid_hostname (repeat "a"%byte 63 ++ [newline]) = Ok true /\
  build_address (repeat "a"%byte 63 ++ [newline]) = None /\
  build_request (x12, x34) (repeat "a"%byte 63 ++ [newline]) QTYPE_A
  = Raise TypeError.
Proof.
  exact (is_valid_hostname_not_encodable (x12, x34) label_syntax_repeat_a
           (repeat_length "a"%byte 63)).
Defined.

(** * The registries of [DNSProtocol] *)

Import Protocol.

Lemma dict_get_set_same (d : list (nat * list nat)) (k : nat) (v : list nat) :
  dict_get (dict_set d k v) k = Some v.
Proof.
  induction d as [|[k' v'] d IH]; simpl.
  - now rewrite Nat.eqb_refl.
  - destruct (Nat.eqb_spec k' k) as [->|Hne]; simpl.
    + now rewrite Nat.eqb_refl.
    + now rewrite (proj2 (Nat.eqb_neq k' k) Hne).
Qed.

Lemma dict_get_set_other (d : list (nat * list nat)) (k k' : nat)
    (v : list nat) :
  k' <> k -> dict_get (dict_set d k v) k' = dict_get d k'.
Proof.
  intros Hne. induction d as [|[k0 v0] d IH]; simpl.
  - now rewrite (proj2 (Nat.eqb_neq k k') (not_eq_sym Hne)).
  - destruct (Nat.eqb_spec k0 k) as [->|Hk]; simpl.
    + now rewrite (proj2 (Nat.eqb_neq k k') (not_eq_sym Hne)).
    + now rewrite IH.
Qed.

Lemma list_remove_snoc (x : nat) (l : list nat) :
  ~ In x l -> list_remove x (l ++ [x]) = Some l.
Proof.
  induction l as [|y l IH]; intros Hno; simpl.
  - now rewrite Nat.eqb_refl.
  - destruct (Nat.eqb_spec y x) as [->|_]; [exfalso; apply Hno; now left|].
    rewrite IH; [reflexivity|]. intros H. apply Hno. now right.
Qed.

Lemma set_add_In (x : nat) (s : list nat) : In x (set_add x s).
Proof.
  unfold set_add. destruct (existsb (Nat.eqb x) s) eqn:E.
  - apply existsb_exists in E. destruct E as (y & Hy & Hxy).
    apply Nat.eqb_eq in Hxy. now subst y.
  - apply in_or_app. right. now left.
Qed.

Lemma filter_action_prints (A : Type) (f : A -> printed) (l : list A) :
  filter is_action (map (fun x => Print (f x)) l) = [].
Proof. induction l as [|x l IH]; simpl; [reflexivity | exact IH]. Qed.

Lemma filter_if_print (b : bool) (line : printed) :
  filter is_action (if b then [Print line] else []) = [].
Proof. destruct b; reflexivity. Qed.

Lemma try_remove_spec (self : nat) (l : list nat) :
  fst (try_remove self l) = without self l
  /\ filter is_action (snd (try_remove self l)) = [].
Proof.
  unfold try_remove, without. destruct (list_remove self l); split; reflexivity.
Qed.

(** X14: when the hostname of a session has a label longer than 63 bytes,
    [connection_made] raises the [TypeError] of [build_request] before it
    sends or records anything: the registries of the class are as they
    were and no datagram has gone to the transport. *)
Theorem connection_made_unencodable (st : registry) (self : instance)
    (sock_port sock_fileno : nat) (urandom : byte * byte) :
  Exists (fun label => 63 < length label)
    (split dot (strip dot (Protocol.hostname self))) ->
  connection_made st self sock_port sock_fileno urandom =
  (st,
   Instance (Protocol.hostname self) (num self) (Some sock_port)
     (Some sock_fileno) (receive_data_num self),
   [], Raised (CodecError TypeError)).
Proof.
  intros Hlong. unfold connection_made. cbn [Protocol.hostname].
  rewrite build_request_eq, (build_address_None _ Hlong). reflexivity.
Qed.

Lemma connection_made_unencodable_witness :
  Exists (fun label => 63 < length label)
    (split dot (strip dot (repeat "a"%byte 64 ++ B ".com"))) /\
  connection_made initial
    (Instance (repeat "a"%byte 64 ++ B ".com") 1 None None 0) 4000 7 (x12, x34)
  = (initial,
     Instance (repeat "a"%byte 64 ++ B ".com") 1 (Some 4000) (Some 7) 0,
     [], Raised (CodecError TypeError)).
Proof.
  assert (H : Exists (fun label => 63 < length label)
                (split dot (strip dot (repeat "a"%byte 64 ++ B ".com"))))
    by (change (split dot (strip dot (repeat "a"%byte 64 ++ B ".com")))
          with [repeat "a"%byte 64; B "com"];
        apply Exists_cons_hd; simpl; lia).
  split; [exact H|].
  exact (connection_made_unencodable initial
           (Instance (repeat "a"%byte 64 ++ B ".com") 1 None None 0)
           4000 7 (x12, x34) H).
Defined.

(** X15: [datagram_received] returns exactly when the local port is a
    key of [used_port].  Without the key it raises [KeyError] after it has
    added the session to [receiving], and neither closes the transport nor
    calls the callback.  With the key it takes the first occurrence of the
    session out of the list of the port, closes the transport once and
    then calls the callback once, with the result of [parse_response] on
    the datagram.  The lists of the other ports, [sending] and the counter
    are never touched. *)
Theorem datagram_received_outcome (depth : nat) (st : registry)
    (self : instance) (sock_port : nat) (data : bytes) :
  let '(st', events, result) :=
    datagram_received depth st self sock_port data in
  receiving st' = set_add (num self) (receiving st) /\
  sending st' = sending st /\ next_num st' = next_num st /\
  (forall p, p <> sock_port ->
             dict_get (used_port st') p = dict_get (used_port st) p) /\
  match dict_get (used_port st) sock_port with
  | None =>
      result = Raised KeyError /\ filter is_action events = []
      /\ used_port st' = used_port st
  | Some l =>
      result = Returned
      /\ filter is_action events
         = [Close (num self); Callback (parse_response depth data) (num self)]
      /\ dict_get (used_port st') sock_port = Some (without (num self) l)
  end.
Proof.
  unfold datagram_received.
  destruct (dict_get (used_port st) sock_port) as [l|] eqn:Hget.
  - pose proof (try_remove_spec (num self) l) as [Hfst Hsnd].
    assert (Hbranch :
      exists l' ev,
        (if length l =? 1 then try_remove (num self) l
         else if 1 <=? length l then
           let '(l', ev) := try_remove (num self) l in
           (l', map (fun x => Print (WithSock x)) l ++ ev)
         else (l, [Print (NoPortUsed sock_port)])) = (l', ev)
        /\ l' = without (num self) l /\ filter is_action ev = []).
    { destruct (length l =? 1) eqn:E1.
      - exists (fst (try_remove (num self) l)), (snd (try_remove (num self) l)).
        repeat split; [now destruct (try_remove _ _) | | ]; assumption.
      - destruct (1 <=? length l) eqn:E2.
        + destruct (try_remove (num self) l) as [l' ev]. simpl in *.
          exists l', (map (fun x => Print (WithSock x)) l ++ ev).
          repeat split; [exact Hfst|].
          now rewrite filter_app, filter_action_prints, Hsnd.
        + exists l, [Print (NoPortUsed sock_port)].
          repeat split.
          destruct l; [reflexivity | discriminate]. }
    destruct Hbranch as (l' & ev & -> & -> & Hev).
    cbn [receiving sending next_num used_port].
    repeat split.
    + intros p Hp. now apply dict_get_set_other.
    + now rewrite !filter_app, Hev, !filter_if_print.
    + apply dict_get_set_same.
  - cbn [receiving sending next_num used_port].
    repeat split.
    now rewrite filter_app, !filter_if_print.
Qed.

(** X16: the reply releases what the connection recorded.  After a
    [connection_made] that returns and a [datagram_received] on the same
    local port, the list of that port in [used_port] is the list found
    before the connection (the empty list if there was none), provided the
    session was not in it; the session is in [sending] and in
    [receiving], the transport has been closed once and the callback
    called once with the parsed response. *)
Theorem session_released (depth : nat) (st : registry) (self : instance)
    (sock_port sock_fileno : nat) (urandom : byte * byte) (data : bytes)
    (st1 : registry) (self1 : instance) (ev1 : list event) :
  connection_made st self sock_port sock_fileno urandom
  = (st1, self1, ev1, Returned) ->
  ~ In (num self)
      match dict_get (used_port st) sock_port with Some l => l | None => [] end ->
  let '(st2, ev2, result) :=
    datagram_received depth st1 self1 sock_port data in
  result = Returned /\
  dict_get (used_port st2) sock_port
  = Some match dict_get (used_port st) sock_port with
         | Some l => l | None => [] end /\
  In (num self) (sending st2) /\ In (num self) (receiving st2) /\
  filter is_action ev2
  = [Close (num self); Callback (parse_response depth data) (num self)].
Proof.
  intros Hconn Hfresh.
  set (before := match dict_get (used_port st) sock_port with
                 | Some l => l | None => [] end) in *.
  unfold connection_made in Hconn. cbn [Protocol.hostname num] in Hconn.
  destruct (build_request urandom (Protocol.hostname self) QTYPE_A)
    as [req|e]; [|discriminate].
  injection Hconn as <- <- _.
  assert (Hget : dict_get
            (if truthy (dict_get (used_port st) sock_port)
             then match dict_get (used_port st) sock_port with
                  | Some l => dict_set (used_port st) sock_port (l ++ [num self])
                  | None => used_port st
                  end
             else dict_set (used_port st) sock_port [num self]) sock_port
          = Some (before ++ [num self])).
  { unfold before.
    destruct (dict_get (used_port st) sock_port) as [[|x l]|]; simpl;
      apply dict_get_set_same. }
  unfold datagram_received.
  cbn [used_port receiving sending num next_num conn_lost].
  rewrite Hget.
  assert (Hrm : try_remove (num self) (before ++ [num self]) = (before, []))
    by (unfold try_remove; now rewrite (@list_remove_snoc _ _ Hfresh)).
  assert (Hbranch :
    exists ev,
      (if length (before ++ [num self]) =? 1
       then try_remove (num self) (before ++ [num self])
       else if 1 <=? length (before ++ [num self]) then
         let '(l', ev) := try_remove (num self) (before ++ [num self]) in
         (l', map (fun x => Print (WithSock x)) (before ++ [num self]) ++ ev)
       else (before ++ [num self], [Print (NoPortUsed sock_port)]))
      = (before, ev)
      /\ filter is_action ev = []).
  { rewrite Hrm. destruct (length (before ++ [num self]) =? 1).
    - exists []. split; reflexivity.
    - replace (1 <=? length (before ++ [num self])) with true
        by (symmetry; apply Nat.leb_le; rewrite length_app; simpl; lia).
      eexists. split; [reflexivity|].
      now rewrite app_nil_r, filter_action_prints. }
  destruct Hbranch as (ev & -> & Hev).
  cbn [used_port receiving sending].
  repeat split.
  - apply dict_get_set_same.
  - apply set_add_In.
  - apply set_add_In.
  - now rewrite !filter_app, Hev, !filter_if_print.
Qed.

Lemma session_released_witness :
  let self := snd (init initial (B "www.baidu.com")) in
  let made := connection_made initial self 4000 7 (x12, x34) in
  snd made = Returned /\
  ~ In (num self)
      match dict_get (used_port initial) 4000 with Some l => l | None => [] end /\
  let '(st2, ev2, result) :=
    datagram_received 2 (fst (fst (fst made))) (snd (fst (fst made)))
      4000 reply_a in
  result = Returned /\
  dict_get (used_port st2) 4000
  = Some match dict_get (used_port initial) 4000 with
         | Some l => l | None => [] end /\
  In (num self) (sending st2) /\ In (num self) (receiving st2) /\
  filter is_action ev2
  = [Close (num self); Callback (parse_response 2 reply_a) (num self)].
Proof.
  intros self made.
  assert (Hfresh : ~ In (num self)
            match dict_get (used_port initial) 4000 with
            | Some l => l | None => [] end) by (intros []).
  split; [reflexivity | split; [exact Hfresh|]].
  exact (@session_released 2 initial self 4000 7 (x12, x34) reply_a
           (fst (fst (fst made))) (snd (fst (fst made))) (snd (fst made))
           eq_refl Hfresh).
Defined.
